(** * Chatterbox TTS: the Wyoming protocol handler

    A shallow embedding of [app/core/wyoming_server.py] together with the
    parts of Python's [wave] module, of [io.BytesIO] and of the voice
    library that the handler goes through.

    Layout: the definitions come first (bytes and [struct], [io.BytesIO],
    [wave], the voice library, the handler, the server, the scheduling of
    requests), the lemmas and theorems follow. *)

From Stdlib Require Import ZArith String Ascii Strings.Byte Bool List Lia QArith_base.
Import ListNotations.
Open Scope Z_scope.

Set Implicit Arguments.

(* ================================================================== *)
(** * Exceptions and the result of a call *)
(* ================================================================== *)

(** The Python exceptions that the modelled code can raise. *)
Inductive exn : Type :=
| WaveError (msg : string)      (* wave.Error *)
| EOFError                      (* built-in EOFError *)
| RuntimeError                  (* built-in RuntimeError *)
| StructError                   (* struct.error *)
| KeyError (key : string)       (* built-in KeyError *)
| ModelError (msg : string).    (* whatever model.generate raised *)

(** A call either returns a value or raises. *)
Inductive result (A : Type) : Type :=
| Ok (a : A)
| Raise (e : exn).
Arguments Ok {A} a.
Arguments Raise {A} e.

Definition bind {A B} (r : result A) (k : A -> result B) : result B :=
  match r with
  | Ok a => k a
  | Raise e => Raise e
  end.

Declare Scope result_scope.
Delimit Scope result_scope with result.
Notation "x <- c ;; k" := (bind c (fun x => k))
  (at level 61, c at next level, right associativity) : result_scope.
Notation "' p <- c ;; k" := (bind c (fun x => let p := x in k))
  (at level 61, p pattern, c at next level, right associativity) : result_scope.
Open Scope result_scope.

(* ================================================================== *)
(** * Bytes and [struct.pack] / [struct.unpack] (little endian) *)
(* ================================================================== *)

Definition bytes := list byte.

Definition len (b : bytes) : Z := Z.of_nat (length b).

Definition byte_of_Z (z : Z) : byte :=
  match Byte.of_N (Z.to_N (z mod 256)) with
  | Some b => b
  | None => x00
  end.

Definition Z_of_byte (b : byte) : Z := Z.of_N (Byte.to_N b).

(** The [n] low bytes of [v], least significant first. *)
Fixpoint le_bytes (n : nat) (v : Z) : bytes :=
  match n with
  | O => []
  | S n' => byte_of_Z v :: le_bytes n' (v / 256)
  end.

(** The unsigned integer that a little-endian byte string stands for. *)
Fixpoint le_int (b : bytes) : Z :=
  match b with
  | [] => 0
  | x :: b' => Z_of_byte x + 256 * le_int b'
  end.

(** [struct.pack('<L', v)]: four bytes, [struct.error] out of range. *)
Definition pack_L (v : Z) : result bytes :=
  if (0 <=? v) && (v <? 2 ^ 32) then Ok (le_bytes 4 v) else Raise StructError.

(** [struct.pack('<H', v)]: two bytes, [struct.error] out of range. *)
Definition pack_H (v : Z) : result bytes :=
  if (0 <=? v) && (v <? 2 ^ 16) then Ok (le_bytes 2 v) else Raise StructError.

(** [struct.unpack_from('<L', b)[0]]: [struct.error] on a short buffer. *)
Definition unpack_L (b : bytes) : result Z :=
  match b with
  | b0 :: b1 :: b2 :: b3 :: _ => Ok (le_int [b0; b1; b2; b3])
  | _ => Raise StructError
  end.

Fixpoint bytes_eqb (a b : bytes) : bool :=
  match a, b with
  | [], [] => true
  | x :: a', y :: b' => Byte.eqb x y && bytes_eqb a' b'
  | _, _ => false
  end.

(** A bytes literal such as [b'RIFF']. *)
Definition b_ (s : string) : bytes := list_byte_of_string s.

(* ================================================================== *)
(** * File-like objects: [io.BytesIO] and [wave._Chunk] *)
(* ================================================================== *)

(** What [wave] asks of a file object.  [fread f size] returns the bytes
    read and the object after the read; [fseek f pos whence] is
    [f.seek(pos, whence)] for [whence] 0 (absolute) and 1 (relative). *)
Class FileLike (F : Type) : Type := {
  fread : F -> Z -> bytes * F;
  fseek : F -> Z -> Z -> result F;
  ftell : F -> Z
}.

(** [io.BytesIO]: a buffer and a position. *)
Record BytesIO : Type := mkBytesIO {
  bio_buf : bytes;
  bio_pos : Z
}.

(** [BytesIO.read(size)], [size >= 0]. *)
Definition BytesIO_read (f : BytesIO) (size : Z) : bytes * BytesIO :=
  let data := firstn (Z.to_nat size) (skipn (Z.to_nat (bio_pos f)) (bio_buf f)) in
  (data, mkBytesIO (bio_buf f) (bio_pos f + len data)).

(** [BytesIO.seek(pos, whence)]; seeking past the end is allowed. *)
Definition BytesIO_seek (f : BytesIO) (pos whence : Z) : result BytesIO :=
  if whence =? 0 then Ok (mkBytesIO (bio_buf f) pos)
  else Ok (mkBytesIO (bio_buf f) (bio_pos f + pos)).

(** [BytesIO.write(data)]: overwrites from the position on, extends the
    buffer as needed (zero filled when the position is past the end). *)
Definition BytesIO_write (f : BytesIO) (data : bytes) : BytesIO :=
  let p := Z.to_nat (bio_pos f) in
  mkBytesIO
    (firstn p (bio_buf f) ++ repeat x00 (p - length (bio_buf f))
       ++ data ++ skipn (p + length data) (bio_buf f))
    (bio_pos f + len data).

#[export] Instance BytesIO_FileLike : FileLike BytesIO := {
  fread := BytesIO_read;
  fseek := BytesIO_seek;
  ftell := bio_pos
}.

(** [wave._Chunk] over a file object [F] ([align = True],
    [bigendian = False], [inclheader = False]; the underlying file can
    tell its position, so the chunk is seekable). *)
Record Chunk (F : Type) : Type := mkChunk {
  c_file : F;
  chunkname : bytes;
  chunksize : Z;
  size_read : Z;
  c_offset : Z
}.

Section ChunkOps.
Context {F : Type} `{FileLike F}.

(** [_Chunk.__init__]. *)
Definition Chunk_init (file : F) : result (Chunk F) :=
  let (name, file1) := fread file 4 in
  if len name <? 4 then Raise EOFError
  else
    let (sz, file2) := fread file1 4 in
    match unpack_L sz with
    | Raise _ => Raise EOFError
    | Ok size => Ok (mkChunk file2 name size 0 (ftell file2))
    end.

(** [_Chunk.read(size)]. *)
Definition Chunk_read (c : Chunk F) (size : Z) : bytes * Chunk F :=
  if size_read c >=? chunksize c then ([], c)
  else
    let size := if size <? 0 then chunksize c - size_read c else size in
    let size := if size >? chunksize c - size_read c
                then chunksize c - size_read c else size in
    let (data, file1) := fread (c_file c) size in
    let sr := size_read c + len data in
    if (sr =? chunksize c) && Z.odd (chunksize c) then
      let (dummy, file2) := fread file1 1 in
      (data, mkChunk file2 (chunkname c) (chunksize c) (sr + len dummy) (c_offset c))
    else
      (data, mkChunk file1 (chunkname c) (chunksize c) sr (c_offset c)).

(** [_Chunk.seek(pos, whence)] for [whence] 0 and 1. *)
Definition Chunk_seek (c : Chunk F) (pos whence : Z) : result (Chunk F) :=
  let pos := if whence =? 1 then pos + size_read c else pos in
  if (pos <? 0) || (pos >? chunksize c) then Raise RuntimeError
  else
    file1 <- fseek (c_file c) (c_offset c + pos) 0 ;;
    Ok (mkChunk file1 (chunkname c) (chunksize c) pos (c_offset c)).

(** [_Chunk.skip()]: the seekable branch. *)
Definition Chunk_skip (c : Chunk F) : result (Chunk F) :=
  let n := chunksize c - size_read c in
  let n := if Z.odd (chunksize c) then n + 1 else n in
  file1 <- fseek (c_file c) n 1 ;;
  Ok (mkChunk file1 (chunkname c) (chunksize c) (size_read c + n) (c_offset c)).
End ChunkOps.

#[export] Instance Chunk_FileLike {F : Type} `{FileLike F} : FileLike (Chunk F) := {
  fread := Chunk_read;
  fseek := Chunk_seek;
  ftell := @size_read F
}.

(* ================================================================== *)
(** * Python's [wave] module: reading *)
(* ================================================================== *)

(** [Lib/wave.py] as of CPython 3.11: [WAVE_FORMAT_PCM] is the one format
    tag that the reader accepts. *)

Definition WAVE_FORMAT_PCM : Z := 1.

(** The fields that [Wave_read._read_fmt_chunk] sets. *)
Record FmtInfo : Type := mkFmtInfo {
  fmt_nchannels : Z;
  fmt_framerate : Z;
  fmt_sampwidth : Z;
  fmt_framesize : Z
}.

(** [Wave_read] once [initfp] has returned. *)
Record Wave_read : Type := mkWave_read {
  r_nchannels : Z;
  r_sampwidth : Z;
  r_framerate : Z;
  r_framesize : Z;
  r_nframes : Z;
  r_data_chunk : Chunk (Chunk BytesIO)
}.

(** [Wave_read._read_fmt_chunk(chunk)]: 14 bytes read as ['<HHLLH'], then
    the sample width in bits as ['<H'] when the format tag is PCM. *)
Definition _read_fmt_chunk (chunk : Chunk (Chunk BytesIO))
  : result (FmtInfo * Chunk (Chunk BytesIO)) :=
  let (d, chunk1) := fread chunk 14 in
  match d with
  | t0 :: t1 :: n0 :: n1 :: f0 :: f1 :: f2 :: f3
       :: _ :: _ :: _ :: _ :: _ :: _ :: _ =>
    let wFormatTag := le_int [t0; t1] in
    let nchannels := le_int [n0; n1] in
    let framerate := le_int [f0; f1; f2; f3] in
    if wFormatTag =? WAVE_FORMAT_PCM then
      let (d2, chunk2) := fread chunk1 2 in
      match d2 with
      | s0 :: s1 :: _ =>
        let sampwidth := (le_int [s0; s1] + 7) / 8 in
        if sampwidth =? 0 then Raise (WaveError "bad sample width")
        else if nchannels =? 0 then Raise (WaveError "bad # of channels")
        else Ok (mkFmtInfo nchannels framerate sampwidth (nchannels * sampwidth),
                 chunk2)
      | _ => Raise EOFError
      end
    else Raise (WaveError "unknown format")
  | _ => Raise EOFError
  end.

(** The [while 1] loop of [Wave_read.initfp]: one chunk of the RIFF body
    per turn, until the [data] chunk.  Every turn that goes on has read an
    8-byte chunk header, so the loop makes at most one turn per 8 bytes of
    the buffer, plus one; [fuel] counts the turns, and
    [read_chunks_enough_fuel] below shows that they do not run out. *)
Fixpoint read_chunks (fuel : nat) (riff : Chunk BytesIO) (fmt : option FmtInfo)
  : result Wave_read :=
  match fuel with
  | O => Raise (WaveError "fmt chunk and/or data chunk missing")
  | S fuel' =>
    match Chunk_init riff with
    | Raise _ => Raise (WaveError "fmt chunk and/or data chunk missing")
    | Ok chunk =>
      if bytes_eqb (chunkname chunk) (b_ "fmt ") then
        '(info, chunk1) <- _read_fmt_chunk chunk ;;
        chunk2 <- Chunk_skip chunk1 ;;
        read_chunks fuel' (c_file chunk2) (Some info)
      else if bytes_eqb (chunkname chunk) (b_ "data") then
        match fmt with
        | None => Raise (WaveError "data chunk before fmt chunk")
        | Some info =>
          Ok (mkWave_read (fmt_nchannels info) (fmt_sampwidth info)
                (fmt_framerate info) (fmt_framesize info)
                (chunksize chunk / fmt_framesize info) chunk)
        end
      else
        chunk1 <- Chunk_skip chunk ;;
        read_chunks fuel' (c_file chunk1) fmt
    end
  end.

(** [Wave_read.initfp(file)], with [fuel] turns for its loop. *)
Definition Wave_read_initfp_turns (fuel : nat) (file : BytesIO)
  : result Wave_read :=
  riff <- Chunk_init file ;;
  if negb (bytes_eqb (chunkname riff) (b_ "RIFF"))
  then Raise (WaveError "file does not start with RIFF id")
  else
    let (form, riff1) := fread riff 4 in
    if negb (bytes_eqb form (b_ "WAVE"))
    then Raise (WaveError "not a WAVE file")
    else read_chunks fuel riff1 None.

(** [Wave_read.initfp(file)], reached through [wave.open(f, 'rb')]: one
    turn more than the buffer has bytes is more than the loop can make. *)
Definition Wave_read_initfp (file : BytesIO) : result Wave_read :=
  Wave_read_initfp_turns (S (List.length (bio_buf file))) file.

(** [Wave_read.readframes(nframes)] right after [initfp] (no seek is
    pending, and the host is little endian, so no byte swap). *)
Definition readframes (w : Wave_read) (nframes : Z) : bytes :=
  if nframes =? 0 then []
  else fst (fread (r_data_chunk w) (nframes * r_framesize w)).

(* ================================================================== *)
(** * Python's [wave] module: writing *)
(* ================================================================== *)

(** [Wave_write]: the attributes that [initfp] sets. *)
Record Wave_write : Type := mkWave_write {
  w_file : BytesIO;
  w_nchannels : Z;
  w_sampwidth : Z;
  w_framerate : Z;
  w_nframes : Z;
  w_nframeswritten : Z;
  w_datawritten : Z;
  w_datalength : Z;
  w_headerwritten : bool;
  w_form_length_pos : Z;
  w_data_length_pos : Z
}.

(** A method of [Wave_write]: it may change the object and then return or
    raise; the object keeps its changes when the method raises. *)
Definition W (A : Type) : Type := Wave_write -> Wave_write * result A.

Definition wret {A} (a : A) : W A := fun s => (s, Ok a).
Definition wraise {A} (e : exn) : W A := fun s => (s, Raise e).
Definition wbind {A B} (m : W A) (k : A -> W B) : W B :=
  fun s => match m s with
           | (s1, Ok a) => k a s1
           | (s1, Raise e) => (s1, Raise e)
           end.
Definition wget : W Wave_write := fun s => (s, Ok s).
Definition wput (s : Wave_write) : W unit := fun _ => (s, Ok tt).
Definition wlift {A} (r : result A) : W A := fun s => (s, r).

Declare Scope W_scope.
Delimit Scope W_scope with W.
Notation "x <- c ;; k" := (wbind c (fun x => k))
  (at level 61, c at next level, right associativity) : W_scope.
Notation "c ;;; k" := (wbind c (fun _ => k))
  (at level 61, right associativity) : W_scope.

Definition Wave_write_initfp (file : BytesIO) : Wave_write :=
  mkWave_write file 0 0 0 0 0 0 0 false 0 0.

Definition set_file (s : Wave_write) (f : BytesIO) : Wave_write :=
  mkWave_write f (w_nchannels s) (w_sampwidth s) (w_framerate s) (w_nframes s)
    (w_nframeswritten s) (w_datawritten s) (w_datalength s) (w_headerwritten s)
    (w_form_length_pos s) (w_data_length_pos s).

(** [self._file.write(data)]. *)
Definition file_write (data : bytes) : W unit :=
  fun s => (set_file s (BytesIO_write (w_file s) data), Ok tt).

(** [self._file.seek(pos, 0)]. *)
Definition file_seek (pos : Z) : W unit :=
  fun s => (set_file s (mkBytesIO (bio_buf (w_file s)) pos), Ok tt).

Definition setnchannels (nchannels : Z) : W unit :=
  (s <- wget ;;
   if negb (w_datawritten s =? 0)
   then wraise (WaveError "cannot change parameters after starting to write")
   else if nchannels <? 1 then wraise (WaveError "bad # of channels")
   else wput (mkWave_write (w_file s) nchannels (w_sampwidth s) (w_framerate s)
                (w_nframes s) (w_nframeswritten s) (w_datawritten s)
                (w_datalength s) (w_headerwritten s) (w_form_length_pos s)
                (w_data_length_pos s)))%W.

Definition setsampwidth (sampwidth : Z) : W unit :=
  (s <- wget ;;
   if negb (w_datawritten s =? 0)
   then wraise (WaveError "cannot change parameters after starting to write")
   else if (sampwidth <? 1) || (sampwidth >? 4)
   then wraise (WaveError "bad sample width")
   else wput (mkWave_write (w_file s) (w_nchannels s) sampwidth (w_framerate s)
                (w_nframes s) (w_nframeswritten s) (w_datawritten s)
                (w_datalength s) (w_headerwritten s) (w_form_length_pos s)
                (w_data_length_pos s)))%W.

(** [framerate] is an [int], so [int(round(framerate))] is [framerate]. *)
Definition setframerate (framerate : Z) : W unit :=
  (s <- wget ;;
   if negb (w_datawritten s =? 0)
   then wraise (WaveError "cannot change parameters after starting to write")
   else if framerate <=? 0 then wraise (WaveError "bad frame rate")
   else wput (mkWave_write (w_file s) (w_nchannels s) (w_sampwidth s) framerate
                (w_nframes s) (w_nframeswritten s) (w_datawritten s)
                (w_datalength s) (w_headerwritten s) (w_form_length_pos s)
                (w_data_length_pos s)))%W.

(** [struct.pack('<L4s4sLHHLLHH4s', ...)] as [_write_header] calls it. *)
Definition pack_header (datalength nchannels framerate sampwidth : Z)
  : result bytes :=
  riff_len <- pack_L (36 + datalength) ;;
  fmt_len <- pack_L 16 ;;
  tag <- pack_H WAVE_FORMAT_PCM ;;
  nch <- pack_H nchannels ;;
  rate <- pack_L framerate ;;
  byte_rate <- pack_L (nchannels * framerate * sampwidth) ;;
  block_align <- pack_H (nchannels * sampwidth) ;;
  bits <- pack_H (sampwidth * 8) ;;
  Ok (riff_len ++ b_ "WAVE" ++ b_ "fmt " ++ fmt_len ++ tag ++ nch ++ rate
        ++ byte_rate ++ block_align ++ bits ++ b_ "data").

Definition _write_header (initlength : Z) : W unit :=
  (file_write (b_ "RIFF") ;;;
   s <- wget ;;
   let nframes := if w_nframes s =? 0
                  then initlength / (w_nchannels s * w_sampwidth s)
                  else w_nframes s in
   let datalength := nframes * w_nchannels s * w_sampwidth s in
   wput (mkWave_write (w_file s) (w_nchannels s) (w_sampwidth s) (w_framerate s)
           nframes (w_nframeswritten s) (w_datawritten s) datalength
           (w_headerwritten s) (bio_pos (w_file s)) (w_data_length_pos s)) ;;;
   hdr <- wlift (pack_header datalength (w_nchannels s) (w_framerate s)
                   (w_sampwidth s)) ;;
   file_write hdr ;;;
   s1 <- wget ;;
   wput (mkWave_write (w_file s1) (w_nchannels s1) (w_sampwidth s1)
           (w_framerate s1) (w_nframes s1) (w_nframeswritten s1)
           (w_datawritten s1) (w_datalength s1) (w_headerwritten s1)
           (w_form_length_pos s1) (bio_pos (w_file s1))) ;;;
   dl <- wlift (pack_L datalength) ;;
   file_write dl ;;;
   s2 <- wget ;;
   wput (mkWave_write (w_file s2) (w_nchannels s2) (w_sampwidth s2)
           (w_framerate s2) (w_nframes s2) (w_nframeswritten s2)
           (w_datawritten s2) (w_datalength s2) true
           (w_form_length_pos s2) (w_data_length_pos s2)))%W.

Definition _ensure_header_written (datasize : Z) : W unit :=
  (s <- wget ;;
   if w_headerwritten s then wret tt
   else if w_nchannels s =? 0 then wraise (WaveError "# channels not specified")
   else if w_sampwidth s =? 0 then wraise (WaveError "sample width not specified")
   else if w_framerate s =? 0 then wraise (WaveError "sampling rate not specified")
   else _write_header datasize)%W.

Definition _patchheader : W unit :=
  (s <- wget ;;
   if w_datawritten s =? w_datalength s then wret tt
   else
     let curpos := bio_pos (w_file s) in
     file_seek (w_form_length_pos s) ;;;
     p1 <- wlift (pack_L (36 + w_datawritten s)) ;;
     file_write p1 ;;;
     file_seek (w_data_length_pos s) ;;;
     p2 <- wlift (pack_L (w_datawritten s)) ;;
     file_write p2 ;;;
     file_seek curpos ;;;
     s1 <- wget ;;
     wput (mkWave_write (w_file s1) (w_nchannels s1) (w_sampwidth s1)
             (w_framerate s1) (w_nframes s1) (w_nframeswritten s1)
             (w_datawritten s1) (w_datawritten s1) (w_headerwritten s1)
             (w_form_length_pos s1) (w_data_length_pos s1)))%W.

(** [Wave_write.writeframesraw(data)] for [data : bytes] (little-endian
    host: no byte swap). *)
Definition writeframesraw (data : bytes) : W unit :=
  (_ensure_header_written (len data) ;;;
   s <- wget ;;
   let nframes := len data / (w_sampwidth s * w_nchannels s) in
   file_write data ;;;
   s1 <- wget ;;
   wput (mkWave_write (w_file s1) (w_nchannels s1) (w_sampwidth s1)
           (w_framerate s1) (w_nframes s1) (w_nframeswritten s1 + nframes)
           (w_datawritten s1 + len data) (w_datalength s1) (w_headerwritten s1)
           (w_form_length_pos s1) (w_data_length_pos s1)))%W.

Definition writeframes (data : bytes) : W unit :=
  (writeframesraw data ;;;
   s <- wget ;;
   if negb (w_datalength s =? w_datawritten s) then _patchheader else wret tt)%W.

(** [Wave_write.close()], which [__exit__] calls. *)
Definition Wave_write_close : W unit :=
  (_ensure_header_written 0 ;;;
   s <- wget ;;
   if negb (w_datalength s =? w_datawritten s) then _patchheader else wret tt)%W.

(** [with wave.open(buffer, 'wb') as wav_file: body] followed by
    [buffer.getvalue()]: the body runs on a fresh writer over an empty
    buffer, [__exit__] closes the writer whether the body raised or not, and
    an exception of [close] takes the place of one of the body. *)
Definition with_wave_write (body : W unit) : result bytes :=
  let (s1, r1) := body (Wave_write_initfp (mkBytesIO [] 0)) in
  let (s2, r2) := Wave_write_close s1 in
  match r2, r1 with
  | Raise e, _ => Raise e
  | Ok _, Raise e => Raise e
  | Ok _, Ok _ => Ok (bio_buf (w_file s2))
  end.

(** [with wave.open(io.BytesIO(audio_data), 'rb') as wav_file:] and the four
    reads of [_create_audio_response]. *)
Definition wave_decode (audio_data : bytes) : result (Z * Z * Z * bytes) :=
  w <- Wave_read_initfp (mkBytesIO audio_data 0) ;;
  Ok (r_framerate w, r_sampwidth w, r_nchannels w, readframes w (r_nframes w)).

(** The [with] block of [_generate_speech]. *)
Definition wave_encode (channels sample_width sample_rate : Z) (samples : bytes)
  : result bytes :=
  with_wave_write
    (setnchannels channels ;;;
     setsampwidth sample_width ;;;
     setframerate sample_rate ;;;
     writeframes samples)%W.

(* ================================================================== *)
(** * The voice library ([app/core/voice_library.py]) *)
(* ================================================================== *)

(** Python's truth value of an [Optional[str]]: [None] and the empty
    string are false.  [if_truthy o] is the string when [o] is true. *)
Definition if_truthy (o : option string) : option string :=
  match o with
  | Some s => if (s =? "")%string then None else Some s
  | None => None
  end.

(** Modelled from the spec: the provenance of a voice profile. *)
Inductive Source : Type := uploaded | discovered.

(** Modelled from the spec: a voice profile, one entry of the registry,
    defined in [app/core/voice_library.py].  [list_voices()] yields the
    entries as dicts, of which the server reads the key ["name"] only. *)
Record VoiceProfile : Type := mkVoiceProfile {
  name : string;
  storage_path : string;
  original_filename : string;
  language : string;
  source : Source;
  added_at : Z
}.

(** The three methods of the voice library that [wyoming_server.py]
    calls.  The handler is written against this interface. *)
Class VoiceLibraryAPI (L : Type) : Type := {
  get_default_voice : L -> option string;
  get_voice_path : L -> string -> option string;
  list_voices : L -> list VoiceProfile
}.

Module VoiceLibrary.

(** Modelled from the spec: the state of the registry, which lives in
    [app/core/voice_library.py] (not among the sources at hand).  The
    records are kept in insertion order, the order [list()] returns them
    in; [default_voice] is the configured default voice, if one is set. *)
Record t : Type := mk {
  voices_dir : string;
  voices : list VoiceProfile;
  default_voice : option string
}.

Definition names (lib : t) : list string := map name (voices lib).

Definition mem (n : string) (l : list string) : bool :=
  existsb (String.eqb n) l.

(** Modelled from the spec: [list()], the profiles in insertion order. *)
Definition list_voices (lib : t) : list VoiceProfile := voices lib.

(** Modelled from the spec: [lookup(name) -> storage_path | NotFound],
    exact match only. *)
Definition get_voice_path (lib : t) (n : string) : option string :=
  option_map storage_path
    (find (fun v => String.eqb (name v) n) (voices lib)).

(** Modelled from the spec: the registry's configured default voice. *)
Definition get_default_voice (lib : t) : option string := default_voice lib.

(** Modelled from the spec: a file of the voice directory, as the
    non-recursive scan of discovery sees it. *)
Record DirEntry : Type := mkDirEntry {
  filename : string;
  content : bytes
}.

(** Modelled from the spec: the file name cut at its last dot, for the
    stem and the extension that discovery derives;
    [split_ext "a.b.wav" = ("a.b", Some "wav")]. *)
Fixpoint split_ext (s : string) : string * option string :=
  match s with
  | EmptyString => (EmptyString, None)
  | String c s' =>
    match split_ext s' with
    | (st, Some e) => (String c st, Some e)
    | (st, None) =>
      if Ascii.eqb c "."%char then (EmptyString, Some s')
      else (String c st, None)
    end
  end.

(** Modelled from the spec: the extension of a file name, without the
    dot; none for a name that starts with its only dot or ends with a
    dot. *)
Definition extension (fname : string) : option string :=
  match split_ext fname with
  | (st, Some e) =>
    if (st =? "")%string || (e =? "")%string then None else Some e
  | (_, None) => None
  end.

(** Modelled from the spec: the filename stem, the file name without its
    extension. *)
Definition stem (fname : string) : string :=
  match extension fname with
  | Some _ => fst (split_ext fname)
  | None => fname
  end.

(** Modelled from the spec: the two lists of names that discovery
    returns. *)
Record DiscoveryResult : Type := mkResult {
  imported : list string;
  skipped : list string
}.

Section Discovery.
(** Modelled from the spec: the recognized audio extensions ([wav],
    [mp3], [flac], [m4a], [ogg], ...) and the structural validation of a
    file; the spec leaves both open, so they are parameters. *)
Variable audio_extensions : list string.
Variable structurally_valid : DirEntry -> bool.

Definition is_audio (e : DirEntry) : bool :=
  match extension (filename e) with
  | Some x => mem x audio_extensions
  | None => false
  end.

(** Modelled from the spec: the record that discovery creates for a
    file, with [source = discovered] and a [storage_path] that points at
    the file where it lies. *)
Definition discovered_profile (lib : t) (e : DirEntry)
           (default_language : string) (now : Z) : VoiceProfile :=
  mkVoiceProfile (stem (filename e))
    (voices_dir lib ++ "/" ++ filename e)%string
    (filename e) default_language discovered now.

(** Modelled from the spec: one pass over the directory entries.  A
    file with a recognized extension whose name is already a key is
    left out of both lists; otherwise it is registered and reported in
    [imported], or, when it fails the structural validation, reported
    in [skipped]. *)
Fixpoint discover_entries (entries : list DirEntry) (lib : t)
         (default_language : string) (now : Z) (acc : DiscoveryResult)
  : t * DiscoveryResult :=
  match entries with
  | [] => (lib, acc)
  | e :: rest =>
    if is_audio e then
      let n := stem (filename e) in
      if mem n (names lib) then
        discover_entries rest lib default_language now acc
      else if structurally_valid e then
        discover_entries rest
          (mk (voices_dir lib)
              (voices lib ++ [discovered_profile lib e default_language now])
              (default_voice lib))
          default_language now
          (mkResult (imported acc ++ [n]) (skipped acc))
      else
        discover_entries rest lib default_language now
          (mkResult (imported acc) (skipped acc ++ [n]))
    else discover_entries rest lib default_language now acc
  end.

(** Modelled from the spec: [discover_and_import(default_language)]
    over the listing [dir] of the voice directory, at time [now]: the
    registry afterwards and the two lists of names. *)
Definition discover_and_import_voices (lib : t) (dir : list DirEntry)
           (default_language : string) (now : Z) : t * DiscoveryResult :=
  discover_entries dir lib default_language now (mkResult [] []).
End Discovery.

End VoiceLibrary.

#[export] Instance VoiceLibrary_API : VoiceLibraryAPI VoiceLibrary.t := {
  get_default_voice := VoiceLibrary.get_default_voice;
  get_voice_path := VoiceLibrary.get_voice_path;
  list_voices := VoiceLibrary.list_voices
}.

(* ================================================================== *)
(** * Wyoming events and configuration *)
(* ================================================================== *)

(** [wyoming.tts.SynthesizeVoice] and [wyoming.tts.Synthesize]. *)
Record SynthesizeVoice : Type := mkSynthesizeVoice {
  sv_name : option string;
  sv_language : option string;
  sv_speaker : option string
}.

Record Synthesize : Type := mkSynthesize {
  text : string;
  voice : option SynthesizeVoice
}.

(** [wyoming.event.Event], by the event classes the server uses; any
    other event is kept by its type string alone. *)
Inductive Event : Type :=
| SynthesizeEvent (synthesize : Synthesize)
| AudioStart (rate width channels : Z)
| AudioChunk (audio : bytes) (rate width channels : Z)
| AudioStop
| OtherEvent (type : string).

(** [event.type]. *)
Definition event_type (e : Event) : string :=
  match e with
  | SynthesizeEvent _ => "synthesize"
  | AudioStart _ _ _ => "audio-start"
  | AudioChunk _ _ _ _ => "audio-chunk"
  | AudioStop => "audio-stop"
  | OtherEvent ty => ty
  end.

Definition is_type (ty : string) (e : Event) : bool :=
  (event_type e =? ty)%string.

(** [Synthesize.from_event(event)]: reads [event.data["text"]]. *)
Definition Synthesize_from_event (e : Event) : result Synthesize :=
  match e with
  | SynthesizeEvent synthesize => Ok synthesize
  | _ => Raise (KeyError "text")
  end.

(** [WyomingConfig], with the defaults of the dataclass. *)
Record WyomingConfig : Type := mkWyomingConfig {
  host : string;
  port : Z;
  cfg_default_voice : string;
  sample_rate : Z;
  sample_width : Z;
  channels : Z
}.

Definition WyomingConfig_default : WyomingConfig :=
  mkWyomingConfig "0.0.0.0" 10200 "default" 24000 2 1.

(** The constants of [app.config.Config] that the handler reads; their
    values are not among the sources at hand, the three generation
    parameters are only handed on to the model. *)
Record AppConfig : Type := mkAppConfig {
  VOICE_SAMPLE_PATH : string;
  EXAGGERATION : Q;
  CFG_WEIGHT : Q;
  TEMPERATURE : Q
}.

(** [model.generate(text=, voice_sample_path=, exaggeration=, cfg_weight=,
    temperature=)] followed by [audio.tobytes()]: the bytes of the
    samples, or the exception raised. *)
Definition Generate : Type := string -> string -> Q -> Q -> Q -> result bytes.

(* ================================================================== *)
(** * [ChatterboxWyomingHandler] *)
(* ================================================================== *)

(** The first lines of [_handle_synthesize]: [voice_name] is
    [synthesize.voice.name] when [synthesize.voice] and its name are both
    true, and [None] otherwise. *)
Definition requested_voice_name (synthesize : Synthesize) : option string :=
  match voice synthesize with
  | Some v => if_truthy (sv_name v)
  | None => None
  end.

Section Handler.
Context {L : Type} `{VoiceLibraryAPI L}.
Variable Config : AppConfig.
Variable generate : Generate.

(** The handler object: its config and the (shared) voice library. *)
Variable config : WyomingConfig.
Variable voice_library : L.

Definition _resolve_voice_path (voice_name : option string) : string :=
  let use_default :=
    match if_truthy (get_default_voice voice_library) with
    | Some default_voice =>
      match if_truthy (get_voice_path voice_library default_voice) with
      | Some voice_path => voice_path
      | None => VOICE_SAMPLE_PATH Config
      end
    | None => VOICE_SAMPLE_PATH Config
    end in
  match if_truthy voice_name with
  | None => use_default
  | Some n =>
    if (n =? "default")%string then use_default
    else
      match if_truthy (get_voice_path voice_library n) with
      | Some voice_path => voice_path
      | None => VOICE_SAMPLE_PATH Config
      end
  end.

Definition _generate_speech (text : string) (voice_path : string)
  : result bytes :=
  audio <- generate text voice_path (EXAGGERATION Config) (CFG_WEIGHT Config)
             (TEMPERATURE Config) ;;
  wave_encode (channels config) (sample_width config) (sample_rate config)
    audio.

Definition _create_audio_response (audio_data : bytes) : result (list Event) :=
  '(rate, width, channels, frames) <- wave_decode audio_data ;;
  Ok [AudioStart rate width channels;
      AudioChunk frames rate width channels;
      AudioStop].

Definition _handle_synthesize (synthesize : Synthesize) : result (list Event) :=
  let voice_name := requested_voice_name synthesize in
  let voice_path := _resolve_voice_path voice_name in
  audio_data <- _generate_speech (text synthesize) voice_path ;;
  _create_audio_response audio_data.

(** [handle_event]: the events to send back, or [None]. *)
Definition handle_event (event : Event) : result (option (list Event)) :=
  if is_type "synthesize" event then
    synthesize <- Synthesize_from_event event ;;
    events <- _handle_synthesize synthesize ;;
    Ok (Some events)
  else Ok None.
End Handler.

(* ================================================================== *)
(** * [ChatterboxWyomingServer] *)
(* ================================================================== *)

(** [wyoming.info]: [Attribution], [TtsVoice], [TtsProgram], [Info], with
    the fields the server fills in. *)
Record Attribution : Type := mkAttribution {
  attr_name : string;
  attr_url : string
}.

Record TtsVoice : Type := mkTtsVoice {
  tv_name : string;
  tv_description : string;
  tv_installed : bool
}.

Record TtsProgram : Type := mkTtsProgram {
  tp_name : string;
  tp_description : string;
  tp_attribution : Attribution;
  tp_installed : bool;
  tp_voices : list TtsVoice
}.

Record Info : Type := mkInfo {
  tts : list TtsProgram
}.

(** The server object: its config (which is all its handler holds besides
    the shared voice library) and the [info] it hands to
    [AsyncServer.__init__]. *)
Record ChatterboxWyomingServer : Type := mkServer {
  srv_config : WyomingConfig;
  srv_info : Info
}.

Section Server.
Context {L : Type} `{VoiceLibraryAPI L}.

Definition _create_info (voice_library : L) : Info :=
  let voices := list_voices voice_library in
  let wyoming_voices :=
    [mkTtsVoice "default" "Default Chatterbox voice" true]
      ++ map (fun voice =>
                mkTtsVoice (name voice)
                  ("Custom voice: " ++ name voice)%string true)
             voices in
  let tts :=
    mkTtsProgram "chatterbox-tts"
      "Chatterbox TTS - High quality voice cloning"
      (mkAttribution "Resemble AI" "https://github.com/resemble-ai/chatterbox")
      true wyoming_voices in
  mkInfo [tts].

(** [ChatterboxWyomingServer.__init__(config)], with the voice library
    as [get_voice_library()] returns it at that moment. *)
Definition ChatterboxWyomingServer_init (config : WyomingConfig)
           (voice_library : L) : ChatterboxWyomingServer :=
  mkServer config (_create_info voice_library).

(** The names of the voices that a description advertises. *)
Definition advertised_voices (i : Info) : list string :=
  flat_map (fun p => map tv_name (tp_voices p)) (tts i).

(** The process: the voice library, one shared object that uploads and
    discovery change in place, and the server built at startup. *)
Record Process : Type := mkProcess {
  the_library : L;
  the_server : ChatterboxWyomingServer
}.

Definition startup (config : WyomingConfig) (voice_library : L) : Process :=
  mkProcess voice_library (ChatterboxWyomingServer_init config voice_library).

(** A change of the voice library after startup: the library object has
    new contents, the server object is the one built at startup. *)
Definition library_changed (p : Process) (voice_library : L) : Process :=
  mkProcess voice_library (the_server p).

(** [ChatterboxWyomingServer.handle_event]: handed on to the handler,
    which reads the voice library as it is when the event comes in. *)
Definition server_handle_event (Config : AppConfig) (generate : Generate)
           (p : Process) (event : Event) : result (option (list Event)) :=
  handle_event Config generate (srv_config (the_server p)) (the_library p)
    event.
End Server.

(* ================================================================== *)
(** * Requests in flight: the event loop, the worker threads, the engine *)
(* ================================================================== *)

(** Modelled from the spec: the synthesis engine behind [get_tts_model()]
    ([app/core/tts_model.py], not among the sources at hand): one object
    shared by every request, stateful and not thread-safe (spec 4.3 and
    6).  A call of [model.generate] takes time and is not atomic: the
    thread that runs it enters the engine with the arguments of the call,
    and later leaves it with the audio that the engine has for it then;
    steps of other threads can fall in between.  [S] is the state of the
    engine. *)
Record Engine (S : Type) : Type := mkEngine {
  engine_enter : string -> string -> Q -> Q -> Q -> S -> S;
  engine_leave : string -> string -> Q -> Q -> Q -> S -> S * result bytes
}.

(** The engine gives every call what the function [generate] gives, in
    whatever state the call finds and leaves it. *)
Definition returns_as {S : Type} (engine : Engine S) (generate : Generate)
  : Prop :=
  forall text voice_path exaggeration cfg_weight temperature s,
    snd (engine_leave engine text voice_path exaggeration cfg_weight
           temperature s)
    = generate text voice_path exaggeration cfg_weight temperature.

(** Where one synthesize request stands.  [_handle_synthesize] runs on the
    event loop up to [await asyncio.to_thread(model.generate, ...)], which
    submits the call to the loop's default executor and suspends the
    coroutine; a worker thread takes the call from the queue of the
    executor and runs it; the coroutine resumes on the event loop once
    the thread is done. *)
Inductive Task : Type :=
| Received (synthesize : Synthesize)
| Queued (text voice_path : string)       (* in the queue of the executor *)
| Generating (text voice_path : string)   (* a thread is in model.generate *)
| Returned (audio : result bytes)         (* the thread is done *)
| Done (response : result (list Event)).  (* the handler has returned *)

Definition is_generating (t : Task) : bool :=
  match t with Generating _ _ => true | _ => false end.

(** The number of [model.generate] calls that are executing. *)
Definition in_flight (tasks : list Task) : nat :=
  List.length (filter is_generating tasks).

Fixpoint set_nth {A} (i : nat) (x : A) (l : list A) : list A :=
  match l, i with
  | [], _ => []
  | _ :: l', O => x :: l'
  | y :: l', S i' => y :: set_nth i' x l'
  end.

(** The process while it serves requests: the coroutines of the requests,
    the work queue of the executor ([ThreadPoolExecutor._work_queue], first
    in first out, the requests named by their place), and the state of the
    one engine. *)
Record Loop (S : Type) : Type := mkLoop {
  tasks : list Task;
  work_queue : list nat;
  engine_state : S
}.

(** What [_handle_synthesize] does once the call has returned: the rest of
    [_generate_speech] and [_create_audio_response]. *)
Definition respond (config : WyomingConfig) (audio : result bytes)
  : result (list Event) :=
  samples <- audio ;;
  audio_data <- wave_encode (channels config) (sample_width config)
                  (sample_rate config) samples ;;
  _create_audio_response audio_data.

Section Scheduling.
Context {L : Type} `{VoiceLibraryAPI L}.
Variable Config : AppConfig.
Context {S : Type}.
Variable engine : Engine S.
Variable config : WyomingConfig.
Variable voice_library : L.

(** The worker threads of the default executor, as [concurrent.futures]
    of CPython 3.11 has them: [min(32, (os.cpu_count() or 1) + 4)] threads
    at most, each of which takes one call at a time from the head of the
    queue. *)
Variable max_workers : nat.

(** The next step of request [i], if it can take one.
    - Received: the coroutine runs up to [await asyncio.to_thread(...)],
      and [executor.submit] puts the call at the end of the queue.
    - Queued: a free worker thread takes the call at the head of the queue
      ([work_queue.get]) and runs it ([work_item.run()]), which enters
      [model.generate]; when the call is not at the head of the queue or
      every thread is busy, it stays where it is.
    - Generating: the call leaves [model.generate] with its audio.
    - Returned: the coroutine resumes and the handler builds the answer.
    The handler takes no lock anywhere: a submitted call waits for its
    turn in the queue and for a free worker thread, and for nothing
    else. *)
Definition step_task (i : nat) (st : Loop S) : Loop S :=
  match nth_error (tasks st) i with
  | Some (Received synthesize) =>
    mkLoop
      (set_nth i
         (Queued (text synthesize)
            (_resolve_voice_path Config voice_library
               (requested_voice_name synthesize)))
         (tasks st))
      (work_queue st ++ [i])
      (engine_state st)
  | Some (Queued text voice_path) =>
    match work_queue st with
    | first :: rest =>
      if (first =? i)%nat && (in_flight (tasks st) <? max_workers)%nat
      then mkLoop (set_nth i (Generating text voice_path) (tasks st)) rest
                  (engine_enter engine text voice_path (EXAGGERATION Config)
                     (CFG_WEIGHT Config) (TEMPERATURE Config)
                     (engine_state st))
      else st
    | [] => st
    end
  | Some (Generating text voice_path) =>
    let (s, audio) :=
      engine_leave engine text voice_path (EXAGGERATION Config)
        (CFG_WEIGHT Config) (TEMPERATURE Config) (engine_state st) in
    mkLoop (set_nth i (Returned audio) (tasks st)) (work_queue st) s
  | Some (Returned audio) =>
    mkLoop (set_nth i (Done (respond config audio)) (tasks st))
           (work_queue st) (engine_state st)
  | Some (Done _) => st
  | None => st
  end.

(** A schedule names, turn by turn, the request that moves. *)
Definition run (schedule : list nat) (st : Loop S) : Loop S :=
  fold_left (fun st i => step_task i st) schedule st.

(** The requests as they come in, on an engine in state [s]. *)
Definition arrivals (requests : list Synthesize) (s : S) : Loop S :=
  mkLoop (map Received requests) [] s.

(** The states of a request that waits in the queue, and of one whose
    call is executing. *)
Definition queued (r : Synthesize) : Task :=
  Queued (text r)
    (_resolve_voice_path Config voice_library (requested_voice_name r)).

Definition generating (r : Synthesize) : Task :=
  Generating (text r)
    (_resolve_voice_path Config voice_library (requested_voice_name r)).

(** The request [r] has its answer: what the handler makes of the audio
    that the engine returned to a call with the arguments of [r]. *)
Definition served (r : Synthesize) (t : Task) : Prop :=
  exists s,
    t = Done (respond config
                (snd (engine_leave engine (text r)
                        (_resolve_voice_path Config voice_library
                           (requested_voice_name r))
                        (EXAGGERATION Config) (CFG_WEIGHT Config)
                        (TEMPERATURE Config) s))).
End Scheduling.

(** Two schedules for [n] requests.  In the first, every request is taken
    up to its call of [model.generate] (as far as there are threads) before
    any of the calls returns.  In the second, each request in turn moves
    three times: its call starts if it still waits, the call returns, the
    handler answers. *)
Definition all_at_once (n : nat) : list nat := seq 0 n ++ seq 0 n.

Definition one_after_another (n : nat) : list nat :=
  flat_map (fun i => [i; i; i]) (seq 0 n).

(* ================================================================== *)
(** * Vocabulary of the statements *)
(* ================================================================== *)

(** A format that [wave] can write: the checks of the three setters and
    the ranges of the header fields that [struct.pack] enforces. *)
Definition valid_format (channels sample_width sample_rate : Z) : Prop :=
  1 <= channels /\ 1 <= sample_width <= 4 /\ 1 <= sample_rate < 2 ^ 32 /\
  channels * sample_width < 2 ^ 16 /\
  channels * sample_rate * sample_width < 2 ^ 32.

(** The 44 bytes in front of the samples in a container that holds
    [datalen] bytes of samples. *)
Definition wav_header (channels sample_width sample_rate datalen : Z) : bytes :=
  b_ "RIFF" ++ le_bytes 4 (36 + datalen) ++ b_ "WAVE" ++ b_ "fmt "
    ++ le_bytes 4 16 ++ le_bytes 2 WAVE_FORMAT_PCM ++ le_bytes 2 channels
    ++ le_bytes 4 sample_rate
    ++ le_bytes 4 (channels * sample_rate * sample_width)
    ++ le_bytes 2 (channels * sample_width) ++ le_bytes 2 (sample_width * 8)
    ++ b_ "data" ++ le_bytes 4 datalen.

(** The RIFF chunk and the buffer under it agree on the position. *)
Definition riff_ok (riff : Chunk BytesIO) : Prop :=
  bio_pos (c_file riff) = c_offset riff + size_read riff /\
  0 <= c_offset riff /\ 0 <= size_read riff.

(** The bytes of the buffer from the position of the RIFF chunk on. *)
Definition bytes_ahead (riff : Chunk BytesIO) : Z :=
  len (bio_buf (c_file riff)) - bio_pos (c_file riff).

(** A chunk has read no more than its size, or one byte of padding more. *)
Definition chunk_ok {F} (c : Chunk F) : Prop :=
  0 <= size_read c /\
  (size_read c <= chunksize c \/
   (Z.odd (chunksize c) = true /\ size_read c <= chunksize c + 1)).

(** The pattern [chunk* end]. *)
Fixpoint chunks_then_end (events : list Event) : bool :=
  match events with
  | [] => false
  | [e] => is_type "audio-stop" e
  | e :: rest => is_type "audio-chunk" e && chunks_then_end rest
  end.

(** The pattern [start chunk* end]. *)
Definition start_chunks_end (events : list Event) : bool :=
  match events with
  | [] => false
  | e :: rest => is_type "audio-start" e && chunks_then_end rest
  end.

Definition count_type (ty : string) (events : list Event) : nat :=
  List.length (filter (is_type ty) events).

(** What a client would see of a failed synthesis if it were reported: an
    answer that holds an [error] event and neither a stream start nor a
    stream chunk. *)
Definition reports_failure (r : result (option (list Event))) : bool :=
  match r with
  | Ok (Some events) =>
    existsb (is_type "error") events
    && negb (existsb (is_type "audio-start") events)
    && negb (existsb (is_type "audio-chunk") events)
  | _ => false
  end.

(** The answer for audio of no bytes if no chunk were sent: a stream start
    followed at once by the stream end. *)
Definition start_then_end (events : list Event) : bool :=
  match events with
  | [e1; e2] => is_type "audio-start" e1 && is_type "audio-stop" e2
  | _ => false
  end.

(* ================================================================== *)
(** * Concrete inputs *)
(* ================================================================== *)

Definition example_Config : AppConfig :=
  mkAppConfig "voice-sample.mp3" (1 # 2) (1 # 2) (4 # 5).

(** A registry with no voice and no default voice. *)
Definition empty_library : VoiceLibrary.t := VoiceLibrary.mk "voices" [] None.

(** A model whose [generate] raises. *)
Definition generate_raises : Generate :=
  fun _ _ _ _ _ => Raise (ModelError "CUDA out of memory").

(** A model that returns an array of no samples. *)
Definition generate_nothing : Generate := fun _ _ _ _ _ => Ok [].

(** A model that returns two 16-bit samples. *)
Definition generate_two_samples : Generate :=
  fun _ _ _ _ _ => Ok [x01; x02; x03; x04].

Definition hello : Synthesize := mkSynthesize "hello" None.

Definition hello_from (voice_name : string) : Synthesize :=
  mkSynthesize "hello" (Some (mkSynthesizeVoice (Some voice_name) None None)).

Definition example_extensions : list string :=
  ["wav"; "mp3"; "flac"; "m4a"; "ogg"]%string.

(** A validation that rejects the files of no bytes. *)
Definition nonempty_file (e : VoiceLibrary.DirEntry) : bool :=
  negb (len (VoiceLibrary.content e) =? 0).

Definition example_dir : list VoiceLibrary.DirEntry :=
  [VoiceLibrary.mkDirEntry "alice.wav" [x52; x49; x46; x46];
   VoiceLibrary.mkDirEntry "notes.txt" [x68; x69];
   VoiceLibrary.mkDirEntry "empty.mp3" [];
   VoiceLibrary.mkDirEntry "alice.ogg" [x4f; x67; x67; x53]].

(** The registry once discovery has gone over [example_dir]. *)
Definition library_after_discovery : VoiceLibrary.t :=
  fst (VoiceLibrary.discover_and_import_voices example_extensions nonempty_file
         empty_library example_dir "en" 1700000000).

(** A process started on the empty registry, whose registry discovery has
    filled since. *)
Definition process_after_discovery : Process :=
  library_changed (startup WyomingConfig_default empty_library)
    library_after_discovery.

(** A registry that holds the voices of alice and of bob, and no default
    voice. *)
Definition two_voices : VoiceLibrary.t :=
  VoiceLibrary.mk "voices"
    [mkVoiceProfile "alice" "voices/alice.wav" "alice.wav" "en" uploaded
       1700000000;
     mkVoiceProfile "bob" "voices/bob.wav" "bob.wav" "en" uploaded
       1700000001]
    None.

(** An engine that keeps one voice loaded: a call loads its voice sample
    on entering, and leaves with audio in the voice that is loaded then
    (for audio, the bytes of the path of that sample). *)
Definition one_voice_engine : Engine string :=
  mkEngine (fun _ voice_path _ _ _ _ => voice_path)
           (fun _ _ _ _ _ loaded => (loaded, Ok (b_ loaded))).

(** An engine with no state, whose calls return what [generate] returns. *)
Definition stateless_engine (generate : Generate) : Engine unit :=
  mkEngine (fun _ _ _ _ _ s => s)
           (fun text voice_path exaggeration cfg_weight temperature s =>
              (s, generate text voice_path exaggeration cfg_weight
                    temperature)).

(* ================================================================== *)
(** * Starting the server: [start_wyoming_server] and [main.py] *)
(* ================================================================== *)

(** [WyomingConfig(host=host, port=port, default_voice=default_voice)] as
    [start_wyoming_server] builds it: the three audio fields keep the
    defaults of the dataclass. *)
Definition start_wyoming_config (host : string) (port : Z)
           (default_voice : string) : WyomingConfig :=
  mkWyomingConfig host port default_voice 24000 2 1.

(** [start_wyoming_server(host, port, default_voice)] up to
    [await server.run()]: the server it constructs, in the process that
    holds the voice library. *)
Definition start_wyoming_server {L : Type} `{VoiceLibraryAPI L}
           (host : string) (port : Z) (default_voice : string)
           (voice_library : L) : Process :=
  startup (start_wyoming_config host port default_voice) voice_library.

(** [os.environ], read through [os.getenv(key, default)]. *)
Definition Environ : Type := string -> option string.

Definition getenv (environ : Environ) (key default : string) : string :=
  match environ key with
  | Some v => v
  | None => default
  end.

(** [str.lower()] on the letters [A]-[Z]; the other characters are kept.
    (Python lowers letters beyond ASCII too; none of them becomes an ASCII
    letter other than [i] and [k], so the comparison with ["true"] below
    comes out the same.) *)
Definition lower_char (c : ascii) : ascii :=
  let n := nat_of_ascii c in
  if ((65 <=? n) && (n <=? 90))%nat then ascii_of_nat (n + 32) else c.

Fixpoint lower (s : string) : string :=
  match s with
  | EmptyString => EmptyString
  | String c s' => String (lower_char c) (lower s')
  end.

(** [os.getenv("ENABLE_WYOMING", "false").lower() == "true"]. *)
Definition enable_wyoming (environ : Environ) : bool :=
  (lower (getenv environ "ENABLE_WYOMING" "false") =? "true")%string.

(** What [main()] ends up doing: [exit(1)], the OpenAI API server alone
    ([uvicorn.run]), or both servers ([asyncio.run(run_servers())]) with
    the Wyoming server on the given config. *)
Inductive Launch : Type :=
| ExitFailure
| ApiOnly
| ApiAndWyoming (config : WyomingConfig).

Section Main.
(** [Config.validate()] and the built-in [int] on a string are not part of
    these sources: the outcome of the one and the function of the other
    are parameters.  [int s] is [None] when [int] raises [ValueError]. *)
Variable validate : result unit.
Variable int : string -> option Z.

(** [run_servers()] up to [asyncio.gather]: the settings of the Wyoming
    server, read from the environment, as they reach
    [start_wyoming_server]; [None] when [int] raises. *)
Definition run_servers (environ : Environ) : option WyomingConfig :=
  let wyoming_host := getenv environ "WYOMING_HOST" "0.0.0.0" in
  match int (getenv environ "WYOMING_PORT" "10200") with
  | None => None
  | Some wyoming_port =>
    let default_voice := getenv environ "DEFAULT_VOICE" "default" in
    Some (start_wyoming_config wyoming_host wyoming_port default_voice)
  end.

(** [main()]: an exception on the way to the servers ends in [exit(1)]. *)
Definition main (environ : Environ) : Launch :=
  match validate with
  | Raise _ => ExitFailure
  | Ok _ =>
    if enable_wyoming environ then
      match run_servers environ with
      | Some config => ApiAndWyoming config
      | None => ExitFailure
      end
    else ApiOnly
  end.
End Main.

(** The sixteen spellings of [true] in upper and lower case. *)
Definition spells_true (v : string) : bool :=
  match v with
  | String a (String b (String c (String d EmptyString))) =>
    (Ascii.eqb a "t" || Ascii.eqb a "T")
    && (Ascii.eqb b "r" || Ascii.eqb b "R")
    && (Ascii.eqb c "u" || Ascii.eqb c "U")
    && (Ascii.eqb d "e" || Ascii.eqb d "E")
  | _ => false
  end.

(** An environment given as a list of bindings, the first one of a key
    counts. *)
Fixpoint environ_of (bindings : list (string * string)) : Environ :=
  fun key =>
    match bindings with
    | [] => None
    | (k, v) :: rest => if (k =? key)%string then Some v else environ_of rest key
    end.

(** [int] on a string of decimal digits, which is all that the examples
    hand to it. *)
Fixpoint int_of_digits_from (acc : Z) (s : string) : option Z :=
  match s with
  | EmptyString => Some acc
  | String c s' =>
    let n := nat_of_ascii c in
    if ((48 <=? n) && (n <=? 57))%nat
    then int_of_digits_from (10 * acc + Z.of_nat (n - 48)) s'
    else None
  end.

Definition int_of_digits (s : string) : option Z :=
  match s with
  | EmptyString => None
  | _ => int_of_digits_from 0 s
  end.

(* ================================================================== *)
(** * Vocabulary of the further statements *)
(* ================================================================== *)

(** The longest prefix of [samples] that is a whole number of frames of
    [channels * sample_width] bytes. *)
Definition whole_frames_prefix (channels sample_width : Z) (samples : bytes)
  : bytes :=
  firstn (Z.to_nat (len samples / (channels * sample_width)
                    * (channels * sample_width)))
         samples.

(** The ranges of a format that [Wave_read._read_fmt_chunk] accepts. *)
Definition format_in_range (info : FmtInfo) : Prop :=
  1 <= fmt_nchannels info < 2 ^ 16 /\
  1 <= fmt_sampwidth info <= 8192 /\
  0 <= fmt_framerate info < 2 ^ 32 /\
  fmt_framesize info = fmt_nchannels info * fmt_sampwidth info.

(* ================================================================== *)
(** * Lemmas: bytes and little-endian integers *)
(* ================================================================== *)

Unset Implicit Arguments.

Lemma Z_of_byte_range b : 0 <= Z_of_byte b < 256.
Proof.
  unfold Z_of_byte. pose proof (Byte.to_N_bounded b). lia.
Qed.

Lemma Z_of_byte_of_Z z : Z_of_byte (byte_of_Z z) = z mod 256.
Proof.
  unfold Z_of_byte, byte_of_Z.
  assert (Hr : 0 <= z mod 256 < 256) by (apply Z.mod_pos_bound; lia).
  destruct (Byte.of_N (Z.to_N (z mod 256))) as [b|] eqn:E.
  - apply Byte.to_of_N in E. rewrite E. lia.
  - apply Byte.of_N_None_iff in E. lia.
Qed.

Lemma byte_of_Z_of_byte b : byte_of_Z (Z_of_byte b) = b.
Proof.
  pose proof (Z_of_byte_range b) as Hr.
  unfold byte_of_Z. rewrite Z.mod_small by lia.
  unfold Z_of_byte. rewrite N2Z.id, Byte.of_to_N. reflexivity.
Qed.

Lemma le_int_le_bytes n v : le_int (le_bytes n v) = v mod 256 ^ Z.of_nat n.
Proof.
  revert v. induction n as [|n IH]; intro v.
  - cbn. rewrite Z.mod_1_r. reflexivity.
  - cbn [le_bytes le_int]. rewrite IH, Z_of_byte_of_Z.
    rewrite Nat2Z.inj_succ, Z.pow_succ_r by lia.
    rewrite Z.rem_mul_r by lia. reflexivity.
Qed.

Lemma le_int_4 v :
  0 <= v < 2 ^ 32 ->
  le_int [byte_of_Z v; byte_of_Z (v / 256); byte_of_Z (v / 256 / 256);
          byte_of_Z (v / 256 / 256 / 256)] = v.
Proof.
  intro Hv. change (le_int (le_bytes 4 v) = v).
  rewrite le_int_le_bytes. apply Z.mod_small. exact Hv.
Qed.

Lemma le_int_2 v :
  0 <= v < 2 ^ 16 ->
  le_int [byte_of_Z v; byte_of_Z (v / 256)] = v.
Proof.
  intro Hv. change (le_int (le_bytes 2 v) = v).
  rewrite le_int_le_bytes. apply Z.mod_small. exact Hv.
Qed.

(* ================================================================== *)
(** * Lemmas: the [wave] writer and reader *)
(* ================================================================== *)

Section WaveLemmas.

Lemma whole_frames n k : 0 < k -> n mod k = 0 -> n / k * k = n.
Proof.
  intros Hk Hm. pose proof (Z.div_mod n k ltac:(lia)). lia.
Qed.

#[local] Arguments byte_of_Z : simpl never.
#[local] Arguments le_int : simpl never.
#[local] Arguments len : simpl nomatch.

Ltac wsimpl :=
  cbn -[le_bytes BytesIO_write Z.add Z.mul Z.div Z.sub Z.modulo Z.pow b_].

Ltac zcmp1 :=
  match goal with
  | |- context [Z.ltb ?a ?b] => destruct (Z.ltb_spec a b); try (cbn in *; lia)
  | |- context [Z.leb ?a ?b] => destruct (Z.leb_spec a b); try (cbn in *; lia)
  | |- context [Z.eqb ?a ?b] => destruct (Z.eqb_spec a b); try (cbn in *; lia)
  | |- context [Z.gtb ?a ?b] => rewrite (Z.gtb_ltb a b)
  | |- context [Z.geb ?a ?b] => rewrite (Z.geb_leb a b)
  end.

Lemma pack_L_ok v : 0 <= v < 2 ^ 32 -> pack_L v = Ok (le_bytes 4 v).
Proof. intro Hv. unfold pack_L. zcmp1. zcmp1. reflexivity. Qed.

Lemma pack_H_ok v : 0 <= v < 2 ^ 16 -> pack_H v = Ok (le_bytes 2 v).
Proof. intro Hv. unfold pack_H. zcmp1. zcmp1. reflexivity. Qed.

Lemma pack_header_ok dl c w r :
  0 <= dl -> 36 + dl < 2 ^ 32 -> valid_format c w r ->
  pack_header dl c r w =
  Ok (le_bytes 4 (36 + dl) ++ b_ "WAVE" ++ b_ "fmt "
    ++ le_bytes 4 16 ++ le_bytes 2 WAVE_FORMAT_PCM ++ le_bytes 2 c
    ++ le_bytes 4 r ++ le_bytes 4 (c * r * w) ++ le_bytes 2 (c * w)
    ++ le_bytes 2 (w * 8) ++ b_ "data").
Proof.
  intros Hdl Hlen (Hc & Hw & Hr & Hcw & Hcrw).
  unfold pack_header.
  rewrite (@pack_L_ok (36 + dl)) by lia.
  rewrite (@pack_L_ok 16) by lia.
  rewrite (@pack_H_ok WAVE_FORMAT_PCM) by (unfold WAVE_FORMAT_PCM; lia).
  rewrite (@pack_H_ok c) by nia.
  rewrite (@pack_L_ok r) by lia.
  rewrite (@pack_L_ok (c * r * w)) by nia.
  rewrite (@pack_H_ok (c * w)) by nia.
  rewrite (@pack_H_ok (w * 8)) by lia.
  reflexivity.
Qed.

Lemma len_app a b : len (a ++ b) = len a + len b.
Proof. unfold len. rewrite length_app. lia. Qed.

Lemma BytesIO_write_at_end buf data :
  BytesIO_write (mkBytesIO buf (len buf)) data =
  mkBytesIO (buf ++ data) (len (buf ++ data)).
Proof.
  unfold BytesIO_write. cbn [bio_buf bio_pos]. cbv zeta.
  replace (Z.to_nat (len buf)) with (List.length buf) by (unfold len; lia).
  rewrite firstn_all, Nat.sub_diag, skipn_all2 by lia. cbn [repeat app].
  rewrite app_nil_r, <- len_app. reflexivity.
Qed.

Lemma wave_encode_whole_frames c w r s :
  valid_format c w r ->
  len s mod (c * w) = 0 ->
  36 + len s < 2 ^ 32 ->
  wave_encode c w r s = Ok (wav_header c w r (len s) ++ s).
Proof.
  intros Hv Hal Hlen.
  pose proof Hv as (Hc & Hw & Hr & Hcw & Hcrw).
  assert (Hs : 0 <= len s) by (unfold len; lia).
  assert (Hcw0 : 0 < c * w) by nia.
  pose proof (@whole_frames _ _ Hcw0 Hal) as Hwf.
  assert (Hwf' : len s / (c * w) * c * w = len s) by lia.
  unfold wave_encode, with_wave_write.
  unfold setnchannels, setsampwidth, setframerate, writeframes, writeframesraw,
    _ensure_header_written, _write_header, Wave_write_close, _patchheader,
    Wave_write_initfp, file_write, wbind, wget, wput, wraise, wret, wlift.
  wsimpl.
  repeat (zcmp1; wsimpl).
  rewrite Hwf'.
  rewrite (@pack_header_ok _ _ _ _ Hs Hlen Hv), (@pack_L_ok (len s)) by lia.
  wsimpl.
  repeat (zcmp1; wsimpl).
  change (mkBytesIO [] 0) with (mkBytesIO [] (len [])).
  rewrite !BytesIO_write_at_end.
  wsimpl. unfold wav_header.
  repeat rewrite <- app_assoc. reflexivity.
Qed.

#[local] Arguments Z.div : simpl nomatch.
#[local] Arguments Z.mul : simpl nomatch.
#[local] Arguments Z.add : simpl nomatch.
#[local] Arguments Z.sub : simpl nomatch.
#[local] Arguments Z.modulo : simpl nomatch.
#[local] Arguments Z.eqb : simpl nomatch.
#[local] Arguments Z.ltb : simpl nomatch.
#[local] Arguments Z.leb : simpl nomatch.
#[local] Arguments Z.gtb : simpl nomatch.
#[local] Arguments Z.geb : simpl nomatch.
#[local] Arguments Z.odd : simpl nomatch.

Ltac lit_to_nat :=
  repeat match goal with
  | |- context [Z.to_nat (Zpos ?p)] =>
    let n := eval vm_compute in (Z.to_nat (Zpos p)) in
    change (Z.to_nat (Zpos p)) with n
  | |- context [Z.to_nat 0] => change (Z.to_nat 0) with O
  end.

Ltac rsimpl := repeat (progress (lit_to_nat; cbn -[read_chunks Z.to_nat])).

Ltac zdecide :=
  repeat match goal with
  | |- context [Z.gtb ?a ?b] => rewrite (Z.gtb_ltb a b)
  | |- context [Z.geb ?a ?b] => rewrite (Z.geb_leb a b)
  | |- context [Z.ltb ?a ?b] =>
    first [ rewrite (proj2 (Z.ltb_lt a b)) by lia
          | rewrite (proj2 (Z.ltb_ge a b)) by lia ]
  | |- context [Z.leb ?a ?b] =>
    first [ rewrite (proj2 (Z.leb_le a b)) by lia
          | rewrite (proj2 (Z.leb_gt a b)) by lia ]
  | |- context [Z.eqb ?a ?b] =>
    first [ rewrite (proj2 (Z.eqb_eq a b)) by lia
          | rewrite (proj2 (Z.eqb_neq a b)) by lia ]
  end.

Lemma read_chunks_S fuel riff fmt :
  read_chunks (S fuel) riff fmt =
  match Chunk_init riff with
  | Raise _ => Raise (WaveError "fmt chunk and/or data chunk missing")
  | Ok chunk =>
    if bytes_eqb (chunkname chunk) (b_ "fmt ") then
      '(info, chunk1) <- _read_fmt_chunk chunk ;;
      chunk2 <- Chunk_skip chunk1 ;;
      read_chunks fuel (c_file chunk2) (Some info)
    else if bytes_eqb (chunkname chunk) (b_ "data") then
      match fmt with
      | None => Raise (WaveError "data chunk before fmt chunk")
      | Some info =>
        Ok (mkWave_read (fmt_nchannels info) (fmt_sampwidth info)
              (fmt_framerate info) (fmt_framesize info)
              (chunksize chunk / fmt_framesize info) chunk)
      end
    else
      chunk1 <- Chunk_skip chunk ;;
      read_chunks fuel (c_file chunk1) fmt
  end.
Proof. reflexivity. Qed.

Ltac rstep := repeat (progress (rsimpl; zdecide)).

Section Decode.
Variables z0 z1 z2 z3 k0 k1 k2 k3 t0 t1 n0 n1 f0 f1 f2 f3 : byte.
Variables a0 a1 a2 a3 l0 l1 i0 i1 d0 d1 d2 d3 : byte.
Variable s : bytes.
Variables c w r : Z.

Let buffer : bytes :=
  ["R"; "I"; "F"; "F"; z0; z1; z2; z3; "W"; "A"; "V"; "E";
   "f"; "m"; "t"; " "; k0; k1; k2; k3; t0; t1; n0; n1; f0; f1; f2; f3;
   a0; a1; a2; a3; l0; l1; i0; i1; "d"; "a"; "t"; "a"; d0; d1; d2; d3]%byte
  ++ s.

Hypothesis Hz : le_int [z0; z1; z2; z3] = 36 + len s.
Hypothesis Hk : le_int [k0; k1; k2; k3] = 16.
Hypothesis Ht : le_int [t0; t1] = WAVE_FORMAT_PCM.
Hypothesis Hn : le_int [n0; n1] = c.
Hypothesis Hf : le_int [f0; f1; f2; f3] = r.
Hypothesis Hi : le_int [i0; i1] = w * 8.
Hypothesis Hd : le_int [d0; d1; d2; d3] = len s.
Hypothesis Hc : 1 <= c.
Hypothesis Hw : 1 <= w.
Hypothesis Hal : len s mod (c * w) = 0.

(** One run of the reader over [buffer]: unfold the next call, compute,
    put the header fields in, settle the comparisons, open the loop. *)
Ltac read_on Hwf :=
  repeat (progress
            (unfold Chunk_init, Chunk_read, Chunk_skip, Chunk_seek,
               _read_fmt_chunk;
             rsimpl;
             rewrite ?Hz, ?Hk, ?Ht, ?Hn, ?Hf, ?Hi, ?Hd, ?Hwf;
             zdecide;
             rewrite ?read_chunks_S)).

Lemma wave_decode_buffer : wave_decode buffer = Ok (r, w, c, s).
Proof.
  assert (Hs : 0 <= len s) by (unfold len; lia).
  assert (Hcw0 : 0 < c * w) by nia.
  assert (Hsw : (w * 8 + 7) / 8 = w)
    by (symmetry; apply Z.div_unique with 7; lia).
  pose proof (@whole_frames _ _ Hcw0 Hal) as Hwf.
  unfold wave_decode, Wave_read_initfp, Wave_read_initfp_turns, readframes,
    buffer.
  destruct (Z.eq_dec (len s) 0) as [Hz0|Hnz].
  - (* no samples: [readframes(0)] *)
    assert (s = []) by (apply length_zero_iff_nil; unfold len in Hz0; lia).
    subst s. read_on Hsw. reflexivity.
  - (* some frames: one read of the data chunk *)
    assert (Hnf : len s / (c * w) <> 0).
    { intro E. rewrite E in Hwf. lia. }
    read_on Hsw. read_on Hwf.
    replace (Z.to_nat (len s)) with (List.length s) by (unfold len; lia).
    rewrite firstn_all.
    repeat match goal with
           | |- context [if ?b then _ else _] => destruct b; rsimpl
           end.
    all: reflexivity.
Qed.
End Decode.

End WaveLemmas.

(** Decoding what the writer produced gives back the format and the
    samples, when the samples are a whole number of frames. *)
Lemma wave_decode_header c w r s :
  valid_format c w r ->
  len s mod (c * w) = 0 ->
  36 + len s < 2 ^ 32 ->
  wave_decode (wav_header c w r (len s) ++ s) = Ok (r, w, c, s).
Proof.
  intros (Hc & Hw & Hr & Hcw & Hcrw) Hal Hlen.
  assert (Hs : 0 <= len s) by (unfold len; lia).
  unfold wav_header.
  cbn [le_bytes b_ list_byte_of_string app].
  apply wave_decode_buffer; try assumption; try lia.
  - apply le_int_4. lia.
  - apply (@le_int_4 16). lia.
  - apply le_int_2. unfold WAVE_FORMAT_PCM. lia.
  - apply le_int_2. nia.
  - apply le_int_4. lia.
  - apply le_int_2. lia.
  - apply le_int_4. lia.
Qed.


(* ================================================================== *)
(** * Lemmas: the loop of the reader ends *)
(* ================================================================== *)

Lemma le_int_nonneg b : 0 <= le_int b.
Proof.
  induction b as [|x b IH]; cbn [le_int]; [lia|].
  pose proof (Z_of_byte_range x). lia.
Qed.

Lemma BytesIO_read_spec f size data f' :
  BytesIO_read f size = (data, f') ->
  0 <= bio_pos f ->
  bio_buf f' = bio_buf f /\
  bio_pos f' = bio_pos f + len data /\
  len data <= Z.max 0 size /\
  (len data = 0 \/ bio_pos f' <= len (bio_buf f)).
Proof.
  unfold BytesIO_read. intros Heq Hpos. inversion Heq; subst; clear Heq.
  cbn [bio_buf bio_pos].
  set (d := firstn (Z.to_nat size) (skipn (Z.to_nat (bio_pos f)) (bio_buf f))).
  assert (Hd1 : (length d <= Z.to_nat size)%nat)
    by (apply firstn_le_length).
  assert (Hd2 : (length d <= length (bio_buf f) - Z.to_nat (bio_pos f))%nat).
  { unfold d. rewrite length_firstn, length_skipn. lia. }
  unfold len. repeat split; try lia.
Qed.

Lemma riff_read_spec riff size data riff' :
  Chunk_read riff size = (data, riff') ->
  riff_ok riff ->
  riff_ok riff' /\
  bio_buf (c_file riff') = bio_buf (c_file riff) /\
  c_offset riff' = c_offset riff /\
  chunksize riff' = chunksize riff /\
  size_read riff + len data <= size_read riff' /\
  (0 <= size -> len data <= size) /\
  (len data <= chunksize riff - size_read riff \/ len data = 0) /\
  (len data = 0 \/ bio_pos (c_file riff') <= len (bio_buf (c_file riff))).
Proof.
  unfold Chunk_read, riff_ok. intros Heq (Hpos & Hoff & Hsr).
  destruct (size_read riff >=? chunksize riff) eqn:Hge.
  - inversion Heq; subst. change (len []) with 0.
    repeat split; try lia.
  - rewrite Z.geb_leb in Hge. apply Z.leb_gt in Hge.
    cbn [fread BytesIO_FileLike] in Heq.
    set (sz1 := if size <? 0 then chunksize riff - size_read riff else size) in *.
    set (sz2 := if sz1 >? chunksize riff - size_read riff
                then chunksize riff - size_read riff else sz1) in *.
    assert (Hsz2 : 0 <= sz2 <= chunksize riff - size_read riff /\
                   (0 <= size -> sz2 <= size)).
    { clear Heq. subst sz2 sz1. rewrite Z.gtb_ltb.
      destruct (size <? 0) eqn:E1;
        [apply Z.ltb_lt in E1|apply Z.ltb_ge in E1];
        match goal with
        | |- context [?a <? ?b] =>
          destruct (a <? b) eqn:E2;
            [apply Z.ltb_lt in E2|apply Z.ltb_ge in E2]
        end; lia. }
    destruct (BytesIO_read (c_file riff) sz2) as [d f1] eqn:Hr1.
    apply BytesIO_read_spec in Hr1; [|lia].
    destruct Hr1 as (Hb1 & Hp1 & Hl1 & Hend1).
    assert (Hd0 : 0 <= len d) by (unfold len; lia).
    destruct ((size_read riff + len d =? chunksize riff)
              && Z.odd (chunksize riff)).
    + destruct (BytesIO_read f1 1) as [dm f2] eqn:Hr2.
      apply BytesIO_read_spec in Hr2; [|lia].
      destruct Hr2 as (Hb2 & Hp2 & Hl2 & Hend2).
      assert (Hm0 : 0 <= len dm) by (unfold len; lia).
      inversion Heq; subst. cbn [c_file c_offset size_read chunksize].
      rewrite Hb2, Hb1 in *. repeat split; try lia; try reflexivity.
    + inversion Heq; subst. cbn [c_file c_offset size_read chunksize].
      repeat split; try lia; try assumption.
Qed.

Lemma riff_init_spec riff chunk :
  Chunk_init riff = Ok chunk ->
  riff_ok riff ->
  riff_ok (c_file chunk) /\
  bio_buf (c_file (c_file chunk)) = bio_buf (c_file riff) /\
  c_offset (c_file chunk) = c_offset riff /\
  chunksize (c_file chunk) = chunksize riff /\
  size_read riff + 8 <= size_read (c_file chunk) /\
  bio_pos (c_file (c_file chunk)) <= len (bio_buf (c_file riff)) /\
  size_read chunk = 0 /\ 0 <= chunksize chunk.
Proof.
  unfold Chunk_init. cbn [fread Chunk_FileLike]. intros Heq Hok.
  destruct (Chunk_read riff 4) as [nm r1] eqn:Hr1.
  destruct (len nm <? 4) eqn:Hlen; [discriminate|].
  apply Z.ltb_ge in Hlen.
  destruct (Chunk_read r1 4) as [sz r2] eqn:Hr2.
  apply riff_read_spec in Hr1; [|exact Hok].
  destruct Hr1 as (Hok1 & Hb1 & Ho1 & Hc1 & Hs1 & _ & _ & _).
  apply riff_read_spec in Hr2; [|exact Hok1].
  destruct Hr2 as (Hok2 & Hb2 & Ho2 & Hc2 & Hs2 & _ & _ & Hend2).
  destruct sz as [|b0 [|b1 [|b2 [|b3 sz]]]]; cbn [unpack_L] in Heq;
    try discriminate.
  injection Heq as <-. cbn [c_file size_read chunksize].
  assert (Hl4 : 4 <= len (b0 :: b1 :: b2 :: b3 :: sz)).
  { unfold len. cbn [length]. lia. }
  pose proof (le_int_nonneg [b0; b1; b2; b3]) as Hnn.
  split; [exact Hok2|]. split; [congruence|]. split; [congruence|].
  split; [congruence|]. split; [lia|]. split; [|split; [reflexivity|exact Hnn]].
  destruct Hend2 as [H0|Hle]; [lia|]. rewrite Hb1 in Hle. exact Hle.
Qed.

Lemma chunk_read_spec (chunk chunk' : Chunk (Chunk BytesIO)) size data :
  Chunk_read chunk size = (data, chunk') ->
  riff_ok (c_file chunk) ->
  chunk_ok chunk ->
  riff_ok (c_file chunk') /\
  bio_buf (c_file (c_file chunk')) = bio_buf (c_file (c_file chunk)) /\
  c_offset (c_file chunk') = c_offset (c_file chunk) /\
  size_read (c_file chunk) <= size_read (c_file chunk') /\
  chunksize chunk' = chunksize chunk /\
  chunk_ok chunk'.
Proof.
  unfold Chunk_read at 1. cbn [fread Chunk_FileLike].
  intros Heq Hriff (Hsr0 & Hsr).
  destruct (size_read chunk >=? chunksize chunk) eqn:Hge.
  - injection Heq as <- <-. repeat split; try lia; try apply Hriff.
    exact Hsr.
  - rewrite Z.geb_leb in Hge. apply Z.leb_gt in Hge.
    set (sz1 := if size <? 0 then chunksize chunk - size_read chunk else size)
      in *.
    set (sz2 := if sz1 >? chunksize chunk - size_read chunk
                then chunksize chunk - size_read chunk else sz1) in *.
    assert (Hsz2 : 0 <= sz2 <= chunksize chunk - size_read chunk).
    { clear Heq. subst sz2 sz1. rewrite Z.gtb_ltb.
      destruct (size <? 0) eqn:E1;
        [apply Z.ltb_lt in E1|apply Z.ltb_ge in E1];
        match goal with
        | |- context [?a <? ?b] =>
          destruct (a <? b) eqn:E2;
            [apply Z.ltb_lt in E2|apply Z.ltb_ge in E2]
        end; lia. }
    destruct (Chunk_read (c_file chunk) sz2) as [d r1] eqn:Hr1.
    apply riff_read_spec in Hr1; [|exact Hriff].
    destruct Hr1 as (Hok1 & Hb1 & Ho1 & _ & Hs1 & Hl1 & _ & _).
    assert (Hd0 : 0 <= len d) by (unfold len; lia).
    specialize (Hl1 (proj1 Hsz2)).
    destruct ((size_read chunk + len d =? chunksize chunk)
              && Z.odd (chunksize chunk)) eqn:Hpad.
    + apply andb_true_iff in Hpad. destruct Hpad as [Hfull Hodd].
      apply Z.eqb_eq in Hfull.
      destruct (Chunk_read r1 1) as [dm r2] eqn:Hr2.
      apply riff_read_spec in Hr2; [|exact Hok1].
      destruct Hr2 as (Hok2 & Hb2 & Ho2 & _ & Hs2 & Hl2 & _ & _).
      assert (Hm0 : 0 <= len dm) by (unfold len; lia).
      specialize (Hl2 ltac:(lia)).
      injection Heq as <- <-. cbn [c_file size_read chunksize].
      unfold chunk_ok. cbn [size_read chunksize].
      repeat split; try lia; try congruence; try apply Hok2.
      right. split; [exact Hodd|lia].
    + injection Heq as <- <-. cbn [c_file size_read chunksize].
      unfold chunk_ok. cbn [size_read chunksize].
      repeat split; try lia; try congruence; try apply Hok1.
Qed.

Lemma read_fmt_chunk_spec chunk info chunk' :
  _read_fmt_chunk chunk = Ok (info, chunk') ->
  riff_ok (c_file chunk) ->
  chunk_ok chunk ->
  riff_ok (c_file chunk') /\
  bio_buf (c_file (c_file chunk')) = bio_buf (c_file (c_file chunk)) /\
  c_offset (c_file chunk') = c_offset (c_file chunk) /\
  size_read (c_file chunk) <= size_read (c_file chunk') /\
  chunk_ok chunk'.
Proof.
  unfold _read_fmt_chunk. cbn [fread Chunk_FileLike].
  intros Heq Hriff Hok.
  destruct (Chunk_read chunk 14) as [d c1] eqn:Hr1.
  apply chunk_read_spec in Hr1; [|exact Hriff|exact Hok].
  destruct Hr1 as (Hriff1 & Hb1 & Ho1 & Hs1 & _ & Hok1).
  do 14 (destruct d as [|? d]; [discriminate|]).
  destruct (_ =? WAVE_FORMAT_PCM); [|discriminate].
  destruct (Chunk_read c1 2) as [d2 c2] eqn:Hr2.
  apply chunk_read_spec in Hr2; [|exact Hriff1|exact Hok1].
  destruct Hr2 as (Hriff2 & Hb2 & Ho2 & Hs2 & _ & Hok2).
  do 2 (destruct d2 as [|? d2]; [discriminate|]).
  destruct (_ =? 0); [discriminate|].
  destruct (_ =? 0); [discriminate|].
  injection Heq as _ <-.
  repeat split; try lia; try congruence; try apply Hriff2; apply Hok2.
Qed.

Lemma chunk_skip_spec (chunk chunk' : Chunk (Chunk BytesIO)) :
  Chunk_skip chunk = Ok chunk' ->
  riff_ok (c_file chunk) ->
  chunk_ok chunk ->
  riff_ok (c_file chunk') /\
  bio_buf (c_file (c_file chunk')) = bio_buf (c_file (c_file chunk)) /\
  c_offset (c_file chunk') = c_offset (c_file chunk) /\
  size_read (c_file chunk) <= size_read (c_file chunk').
Proof.
  unfold Chunk_skip. cbn [fseek Chunk_FileLike]. unfold Chunk_seek.
  cbn [fseek BytesIO_FileLike]. unfold BytesIO_seek.
  change (1 =? 1) with true. change (0 =? 0) with true. cbv iota.
  intros Heq (Hpos & Hoff & Hsr) (Hsr0 & Hpad).
  set (n := if Z.odd (chunksize chunk)
            then chunksize chunk - size_read chunk + 1
            else chunksize chunk - size_read chunk) in *.
  assert (Hn : 0 <= n).
  { subst n. destruct (Z.odd (chunksize chunk)); destruct Hpad as [?|[? ?]];
      try discriminate; lia. }
  destruct ((n + size_read (c_file chunk) <? 0)
            || (n + size_read (c_file chunk) >? chunksize (c_file chunk)));
    cbn [bind] in Heq; [discriminate|].
  injection Heq as <-.
  unfold riff_ok. cbn [c_file bio_pos bio_buf c_offset size_read].
  repeat split; lia.
Qed.

(** A chunk header read from the RIFF chunk takes 8 bytes that are there. *)
Lemma riff_init_ahead riff chunk :
  Chunk_init riff = Ok chunk ->
  riff_ok riff ->
  riff_ok (c_file chunk) /\ chunk_ok chunk /\
  bytes_ahead (c_file chunk) <= bytes_ahead riff - 8 /\
  0 <= bytes_ahead (c_file chunk).
Proof.
  intros Hinit Hok.
  destruct (riff_init_spec _ _ Hinit Hok)
    as (Hok' & Hb & Ho & _ & Hs & Hend & Hsr & Hcs).
  split; [exact Hok'|].
  split; [unfold chunk_ok; lia|].
  unfold bytes_ahead. rewrite Hb.
  destruct Hok as (Hp & _ & _). destruct Hok' as (Hp' & _ & _).
  lia.
Qed.

(** The loop of [initfp] never runs out of turns: with more turns than
    there are bytes ahead, the number of turns does not matter. *)
Lemma read_chunks_enough_fuel fuel :
  forall fuel' riff fmt,
    riff_ok riff ->
    bytes_ahead riff < Z.of_nat fuel ->
    bytes_ahead riff < Z.of_nat fuel' ->
    read_chunks fuel riff fmt = read_chunks fuel' riff fmt.
Proof.
  induction fuel as [|fuel IH]; intros fuel' riff fmt Hok Hf Hf'.
  - destruct fuel' as [|fuel']; [reflexivity|].
    rewrite read_chunks_S. cbn [read_chunks].
    destruct (Chunk_init riff) as [chunk|e] eqn:Hinit; [|reflexivity].
    exfalso. destruct (riff_init_ahead _ _ Hinit Hok) as (_ & _ & Hle & Hge).
    lia.
  - destruct fuel' as [|fuel'].
    + rewrite read_chunks_S. cbn [read_chunks].
      destruct (Chunk_init riff) as [chunk|e] eqn:Hinit; [|reflexivity].
      exfalso. destruct (riff_init_ahead _ _ Hinit Hok) as (_ & _ & Hle & Hge).
      lia.
    + rewrite !read_chunks_S.
      destruct (Chunk_init riff) as [chunk|e] eqn:Hinit; [|reflexivity].
      destruct (riff_init_ahead _ _ Hinit Hok) as (Hok1 & Hck1 & Hle & Hge).
      destruct (bytes_eqb (chunkname chunk) (b_ "fmt ")).
      * destruct (_read_fmt_chunk chunk) as [[info chunk1]|e] eqn:Hfmt;
          [|reflexivity].
        cbn [bind].
        destruct (read_fmt_chunk_spec _ _ _ Hfmt Hok1 Hck1)
          as (Hok2 & Hb2 & Ho2 & Hs2 & Hck2).
        destruct (Chunk_skip chunk1) as [chunk2|e] eqn:Hskip; [|reflexivity].
        cbn [bind].
        destruct (chunk_skip_spec _ _ Hskip Hok2 Hck2)
          as (Hok3 & Hb3 & Ho3 & Hs3).
        assert (Hah : bytes_ahead (c_file chunk2) <= bytes_ahead (c_file chunk)).
        { unfold bytes_ahead. rewrite Hb3, Hb2.
          destruct Hok1 as (-> & _ & _). destruct Hok3 as (-> & _ & _). lia. }
        apply IH; [exact Hok3|lia|lia].
      * destruct (bytes_eqb (chunkname chunk) (b_ "data")); [reflexivity|].
        destruct (Chunk_skip chunk) as [chunk1|e] eqn:Hskip; [|reflexivity].
        cbn [bind].
        destruct (chunk_skip_spec _ _ Hskip Hok1 Hck1)
          as (Hok3 & Hb3 & Ho3 & Hs3).
        assert (Hah : bytes_ahead (c_file chunk1) <= bytes_ahead (c_file chunk)).
        { unfold bytes_ahead. rewrite Hb3.
          destruct Hok1 as (-> & _ & _). destruct Hok3 as (-> & _ & _). lia. }
        apply IH; [exact Hok3|lia|lia].
Qed.

Lemma bytesio_init_spec file riff :
  Chunk_init file = Ok riff ->
  0 <= bio_pos file ->
  riff_ok riff /\ bio_buf (c_file riff) = bio_buf file.
Proof.
  unfold Chunk_init. cbn [fread ftell BytesIO_FileLike]. intros Heq Hpos.
  destruct (BytesIO_read file 4) as [nm f1] eqn:Hr1.
  destruct (len nm <? 4); [discriminate|].
  destruct (BytesIO_read f1 4) as [sz f2] eqn:Hr2.
  apply BytesIO_read_spec in Hr1; [|exact Hpos].
  destruct Hr1 as (Hb1 & Hp1 & _ & _).
  assert (Hn0 : 0 <= len nm) by (unfold len; lia).
  apply BytesIO_read_spec in Hr2; [|lia].
  destruct Hr2 as (Hb2 & Hp2 & _ & _).
  assert (Hs0 : 0 <= len sz) by (unfold len; lia).
  destruct (unpack_L sz); [|discriminate].
  injection Heq as <-. unfold riff_ok. cbn [c_file c_offset size_read].
  repeat split; try lia. congruence.
Qed.

(** [Wave_read.initfp] comes to the same end with any larger number of
    turns: the loop of the reader is never cut short. *)
Lemma Wave_read_initfp_enough_fuel fuel buf :
  (List.length buf < fuel)%nat ->
  Wave_read_initfp_turns fuel (mkBytesIO buf 0)
  = Wave_read_initfp (mkBytesIO buf 0).
Proof.
  intro Hfuel. unfold Wave_read_initfp, Wave_read_initfp_turns.
  cbn [bio_buf].
  destruct (Chunk_init (mkBytesIO buf 0)) as [riff|e] eqn:Hinit;
    [|reflexivity].
  cbn [bind].
  destruct (bytesio_init_spec _ _ Hinit ltac:(cbn; lia)) as (Hok & Hb).
  cbn [bio_buf] in Hb.
  destruct (negb (bytes_eqb (chunkname riff) (b_ "RIFF"))); [reflexivity|].
  cbn [fread Chunk_FileLike].
  destruct (Chunk_read riff 4) as [form riff1] eqn:Hr.
  destruct (negb (bytes_eqb form (b_ "WAVE"))); [reflexivity|].
  destruct (riff_read_spec _ _ _ _ Hr Hok) as (Hok1 & Hb1 & _).
  assert (Hah : bytes_ahead riff1 <= len buf).
  { unfold bytes_ahead. rewrite Hb1, Hb.
    destruct Hok1 as (-> & ? & ?). lia. }
  apply read_chunks_enough_fuel; [exact Hok1|unfold len in *; lia..].
Qed.

(* ================================================================== *)
(** * Lemmas: the handler *)
(* ================================================================== *)

Section HandlerLemmas.
Context {L : Type} `{VoiceLibraryAPI L}.
Variable Config : AppConfig.
Variable generate : Generate.
Variable config : WyomingConfig.
Variable voice_library : L.

(** Only a synthesize event gets an answer. *)
Lemma handle_event_some event events :
  handle_event Config generate config voice_library event = Ok (Some events) ->
  exists synthesize,
    event = SynthesizeEvent synthesize /\
    _handle_synthesize Config generate config voice_library synthesize
    = Ok events.
Proof.
  unfold handle_event. intro Hev.
  destruct event as [synthesize| | | |ty]; cbn in Hev;
    try discriminate.
  - exists synthesize. split; [reflexivity|].
    destruct (_handle_synthesize _ _ _ _ _); cbn in Hev; congruence.
  - unfold is_type in Hev. cbn in Hev.
    destruct (ty =? "synthesize")%string; cbn in Hev; discriminate.
Qed.

(** An answer is made of the decoded container, in three events. *)
Lemma handle_synthesize_ok synthesize events :
  _handle_synthesize Config generate config voice_library synthesize
  = Ok events ->
  exists audio_data rate width channels frames,
    _generate_speech Config generate config (text synthesize)
      (_resolve_voice_path Config voice_library
         (requested_voice_name synthesize)) = Ok audio_data /\
    wave_decode audio_data = Ok (rate, width, channels, frames) /\
    events = [AudioStart rate width channels;
              AudioChunk frames rate width channels;
              AudioStop].
Proof.
  unfold _handle_synthesize. cbv zeta. intro Hs.
  destruct (_generate_speech _ _ _ _ _) as [audio_data|e] eqn:Hgen;
    cbn in Hs; [|discriminate].
  unfold _create_audio_response in Hs.
  destruct (wave_decode audio_data) as [[[[rate width] channels] frames]|e]
    eqn:Hdec; cbn in Hs; [|discriminate].
  exists audio_data, rate, width, channels, frames.
  repeat split; congruence.
Qed.

(** A whole number of frames from the model comes back as the payload of
    the one chunk. *)
Lemma handle_synthesize_whole_frames synthesize samples :
  valid_format (channels config) (sample_width config) (sample_rate config) ->
  generate (text synthesize)
    (_resolve_voice_path Config voice_library (requested_voice_name synthesize))
    (EXAGGERATION Config) (CFG_WEIGHT Config) (TEMPERATURE Config)
  = Ok samples ->
  len samples mod (channels config * sample_width config) = 0 ->
  36 + len samples < 2 ^ 32 ->
  _handle_synthesize Config generate config voice_library synthesize
  = Ok [AudioStart (sample_rate config) (sample_width config) (channels config);
        AudioChunk samples (sample_rate config) (sample_width config)
          (channels config);
        AudioStop].
Proof.
  intros Hv Hgen Hal Hlen.
  unfold _handle_synthesize, _generate_speech. cbv zeta.
  rewrite Hgen. cbn [bind].
  rewrite (@wave_encode_whole_frames _ _ _ _ Hv Hal Hlen). cbn [bind].
  unfold _create_audio_response.
  rewrite (@wave_decode_header _ _ _ _ Hv Hal Hlen). reflexivity.
Qed.

(** An exception of the model leaves the handler as it is. *)
Lemma handle_synthesize_raises synthesize e :
  generate (text synthesize)
    (_resolve_voice_path Config voice_library (requested_voice_name synthesize))
    (EXAGGERATION Config) (CFG_WEIGHT Config) (TEMPERATURE Config)
  = Raise e ->
  _handle_synthesize Config generate config voice_library synthesize = Raise e.
Proof.
  intro Hgen. unfold _handle_synthesize, _generate_speech. cbv zeta.
  rewrite Hgen. reflexivity.
Qed.
End HandlerLemmas.

Lemma valid_format_default :
  valid_format (channels WyomingConfig_default)
    (sample_width WyomingConfig_default) (sample_rate WyomingConfig_default).
Proof. unfold valid_format. cbn. lia. Qed.

(* ================================================================== *)
(** * The container round trip *)
(* ================================================================== *)

(** C7, as stated, fails: one byte written as 16-bit mono audio is not a
    whole frame, and the reader hands back whole frames only. *)
Lemma roundtrip_drops_partial_frame :
  valid_format 1 2 24000 /\
  [x01] <> ([] : bytes) /\
  (audio_data <- wave_encode 1 2 24000 [x01] ;; wave_decode audio_data)
  = Ok (24000, 2, 1, []) /\
  (audio_data <- wave_encode 1 2 24000 [x01] ;; wave_decode audio_data)
  <> Ok (24000, 2, 1, [x01]).
Proof.
  split; [unfold valid_format; lia|].
  split; [discriminate|].
  split; [vm_compute; reflexivity|].
  vm_compute. discriminate.
Qed.

(** C7, amended: for a valid format and samples that are a whole number of
    frames (and fit the 32-bit length fields of the header), decoding the
    encoded container yields the format and the samples again. *)
Theorem wave_roundtrip c w r s :
  valid_format c w r ->
  len s mod (c * w) = 0 ->
  36 + len s < 2 ^ 32 ->
  (audio_data <- wave_encode c w r s ;; wave_decode audio_data)
  = Ok (r, w, c, s).
Proof.
  intros Hv Hal Hlen.
  rewrite (@wave_encode_whole_frames _ _ _ _ Hv Hal Hlen). cbn [bind].
  apply wave_decode_header; assumption.
Qed.

Lemma wave_roundtrip_witness :
  (audio_data <- wave_encode 1 2 24000 [x01; x02; x03; x04] ;;
   wave_decode audio_data)
  = Ok (24000, 2, 1, [x01; x02; x03; x04]).
Proof.
  apply (@wave_roundtrip 1 2 24000 [x01; x02; x03; x04]).
  - unfold valid_format. lia.
  - reflexivity.
  - vm_compute. reflexivity.
Defined.

(* ================================================================== *)
(** * The answer to a synthesize request *)
(* ================================================================== *)

(** C4: an answer of the handler matches [start chunk* end], with one
    stream start and one stream end. *)
Theorem response_matches_start_chunks_end
        (L : Type) (API : VoiceLibraryAPI L) (Config : AppConfig)
        (generate : Generate) (config : WyomingConfig) (voice_library : L)
        (event : Event) (events : list Event) :
  handle_event Config generate config voice_library event = Ok (Some events) ->
  start_chunks_end events = true /\
  count_type "audio-start" events = 1%nat /\
  count_type "audio-stop" events = 1%nat.
Proof.
  intro Hev.
  destruct (handle_event_some _ _ _ _ _ _ Hev) as (synthesize & _ & Hs).
  destruct (handle_synthesize_ok _ _ _ _ _ _ Hs)
    as (audio_data & rate & width & chans & frames & _ & _ & ->).
  repeat split.
Qed.

Lemma response_matches_start_chunks_end_witness :
  handle_event example_Config generate_two_samples WyomingConfig_default
    empty_library (SynthesizeEvent hello)
  = Ok (Some [AudioStart 24000 2 1;
              AudioChunk [x01; x02; x03; x04] 24000 2 1;
              AudioStop]) /\
  start_chunks_end [AudioStart 24000 2 1;
                    AudioChunk [x01; x02; x03; x04] 24000 2 1;
                    AudioStop] = true /\
  count_type "audio-start" [AudioStart 24000 2 1;
                            AudioChunk [x01; x02; x03; x04] 24000 2 1;
                            AudioStop] = 1%nat /\
  count_type "audio-stop" [AudioStart 24000 2 1;
                           AudioChunk [x01; x02; x03; x04] 24000 2 1;
                           AudioStop] = 1%nat.
Proof.
  split.
  - vm_compute. reflexivity.
  - apply (@response_matches_start_chunks_end _ _ example_Config
             generate_two_samples WyomingConfig_default empty_library
             (SynthesizeEvent hello)).
    vm_compute. reflexivity.
Defined.



(** C5, as stated, fails: for audio of no bytes the answer still holds a
    chunk, between the stream start and the stream end. *)
Lemma zero_bytes_answer_has_a_chunk :
  handle_event example_Config generate_nothing WyomingConfig_default
    empty_library (SynthesizeEvent hello)
  = Ok (Some [AudioStart 24000 2 1; AudioChunk [] 24000 2 1; AudioStop]) /\
  start_then_end [AudioStart 24000 2 1; AudioChunk [] 24000 2 1; AudioStop]
  = false /\
  count_type "audio-chunk"
    [AudioStart 24000 2 1; AudioChunk [] 24000 2 1; AudioStop] = 1%nat.
Proof.
  split; [vm_compute; reflexivity|]. split; reflexivity.
Qed.

(** C5, amended: when the model returns no bytes (and the configured
    format is one that [wave] can write), the answer is the stream start,
    one chunk with an empty payload, and the stream end. *)
Theorem zero_bytes_answer
        (L : Type) (API : VoiceLibraryAPI L) (Config : AppConfig)
        (generate : Generate) (config : WyomingConfig) (voice_library : L)
        (synthesize : Synthesize) :
  valid_format (channels config) (sample_width config) (sample_rate config) ->
  generate (text synthesize)
    (_resolve_voice_path Config voice_library (requested_voice_name synthesize))
    (EXAGGERATION Config) (CFG_WEIGHT Config) (TEMPERATURE Config)
  = Ok [] ->
  handle_event Config generate config voice_library (SynthesizeEvent synthesize)
  = Ok (Some [AudioStart (sample_rate config) (sample_width config)
                (channels config);
              AudioChunk [] (sample_rate config) (sample_width config)
                (channels config);
              AudioStop]).
Proof.
  intros Hv Hgen.
  unfold handle_event. cbn [is_type event_type String.eqb Ascii.eqb Bool.eqb
                            Synthesize_from_event bind].
  rewrite (handle_synthesize_whole_frames _ _ _ _ _ _ Hv Hgen).
  - reflexivity.
  - apply Z.mod_0_l. destruct Hv as (? & ? & _). nia.
  - vm_compute. reflexivity.
Qed.

Lemma zero_bytes_answer_witness :
  handle_event example_Config generate_nothing WyomingConfig_default
    empty_library (SynthesizeEvent hello)
  = Ok (Some [AudioStart 24000 2 1; AudioChunk [] 24000 2 1; AudioStop]).
Proof.
  apply (@zero_bytes_answer _ _ example_Config generate_nothing
           WyomingConfig_default empty_library hello).
  - exact valid_format_default.
  - reflexivity.
Defined.

(* ================================================================== *)
(** * A synthesis that fails *)
(* ================================================================== *)

(** C3, as stated, fails: when the model raises, [handle_event] raises too
    and hands back no event, so no error event either; when the model
    returns no samples, the answer is a stream start, a chunk and a stream
    end. *)
Lemma failed_synthesis_is_not_reported :
  handle_event example_Config generate_raises WyomingConfig_default
    empty_library (SynthesizeEvent hello)
  = Raise (ModelError "CUDA out of memory") /\
  reports_failure
    (handle_event example_Config generate_raises WyomingConfig_default
       empty_library (SynthesizeEvent hello)) = false /\
  reports_failure
    (handle_event example_Config generate_nothing WyomingConfig_default
       empty_library (SynthesizeEvent hello)) = false.
Proof.
  repeat split; vm_compute; reflexivity.
Qed.

(** C3, amended: an exception of the model goes through [handle_event]
    unchanged, with no event for the client; samples of no bytes are not a
    failure and are answered with a stream start, one empty chunk and the
    stream end. *)
Theorem failed_synthesis_propagates
        (L : Type) (API : VoiceLibraryAPI L) (Config : AppConfig)
        (generate : Generate) (config : WyomingConfig) (voice_library : L)
        (synthesize : Synthesize) :
  (forall e,
     generate (text synthesize)
       (_resolve_voice_path Config voice_library
          (requested_voice_name synthesize))
       (EXAGGERATION Config) (CFG_WEIGHT Config) (TEMPERATURE Config)
     = Raise e ->
     handle_event Config generate config voice_library
       (SynthesizeEvent synthesize) = Raise e) /\
  (valid_format (channels config) (sample_width config) (sample_rate config) ->
   generate (text synthesize)
     (_resolve_voice_path Config voice_library
        (requested_voice_name synthesize))
     (EXAGGERATION Config) (CFG_WEIGHT Config) (TEMPERATURE Config)
   = Ok [] ->
   handle_event Config generate config voice_library
     (SynthesizeEvent synthesize)
   = Ok (Some [AudioStart (sample_rate config) (sample_width config)
                 (channels config);
               AudioChunk [] (sample_rate config) (sample_width config)
                 (channels config);
               AudioStop])).
Proof.
  split.
  - intros e Hgen. unfold handle_event.
    cbn [is_type event_type String.eqb Ascii.eqb Bool.eqb
         Synthesize_from_event bind].
    rewrite (handle_synthesize_raises _ _ _ _ _ _ Hgen). reflexivity.
  - intros Hv Hgen. unfold handle_event.
    cbn [is_type event_type String.eqb Ascii.eqb Bool.eqb
         Synthesize_from_event bind].
    rewrite (handle_synthesize_whole_frames _ _ _ _ _ _ Hv Hgen).
    + reflexivity.
    + apply Z.mod_0_l. destruct Hv as (? & ? & _). nia.
    + vm_compute. reflexivity.
Qed.

Lemma failed_synthesis_propagates_witness :
  handle_event example_Config generate_raises WyomingConfig_default
    empty_library (SynthesizeEvent hello)
  = Raise (ModelError "CUDA out of memory") /\
  handle_event example_Config generate_nothing WyomingConfig_default
    empty_library (SynthesizeEvent hello)
  = Ok (Some [AudioStart 24000 2 1; AudioChunk [] 24000 2 1; AudioStop]).
Proof.
  split.
  - apply (proj1 (@failed_synthesis_propagates _ _ example_Config
                    generate_raises WyomingConfig_default empty_library
                    hello)).
    reflexivity.
  - apply (proj2 (@failed_synthesis_propagates _ _ example_Config
                    generate_nothing WyomingConfig_default empty_library
                    hello)).
    + exact valid_format_default.
    + reflexivity.
Defined.

(* ================================================================== *)
(** * Voice resolution *)
(* ================================================================== *)

(** C6: with no default voice configured, a name that the library does not
    know resolves to [Config.VOICE_SAMPLE_PATH], as no name does; the two
    requests are answered alike. *)
Theorem fallback_resolution
        (L : Type) (API : VoiceLibraryAPI L) (Config : AppConfig)
        (generate : Generate) (config : WyomingConfig) (voice_library : L)
        (voice_name request_text : string) :
  get_default_voice voice_library = None ->
  get_voice_path voice_library voice_name = None ->
  _resolve_voice_path Config voice_library (Some voice_name)
  = VOICE_SAMPLE_PATH Config /\
  _resolve_voice_path Config voice_library None = VOICE_SAMPLE_PATH Config /\
  handle_event Config generate config voice_library
    (SynthesizeEvent
       (mkSynthesize request_text
          (Some (mkSynthesizeVoice (Some voice_name) None None))))
  = handle_event Config generate config voice_library
      (SynthesizeEvent (mkSynthesize request_text None)).
Proof.
  intros Hdef Hpath.
  assert (Hnamed : _resolve_voice_path Config voice_library (Some voice_name)
                   = VOICE_SAMPLE_PATH Config).
  { unfold _resolve_voice_path. rewrite Hdef. cbn [if_truthy].
    destruct (voice_name =? "")%string; [reflexivity|].
    destruct (voice_name =? "default")%string; [reflexivity|].
    rewrite Hpath. reflexivity. }
  assert (Hnone : _resolve_voice_path Config voice_library None
                  = VOICE_SAMPLE_PATH Config).
  { unfold _resolve_voice_path. rewrite Hdef. reflexivity. }
  repeat split; try assumption.
  unfold handle_event.
  cbn [is_type event_type String.eqb Ascii.eqb Bool.eqb
       Synthesize_from_event bind].
  unfold _handle_synthesize, requested_voice_name. cbn [voice sv_name text].
  cbv zeta.
  replace (_resolve_voice_path Config voice_library
             (if_truthy (Some voice_name)))
    with (VOICE_SAMPLE_PATH Config).
  - rewrite Hnone. reflexivity.
  - cbn [if_truthy]. destruct (voice_name =? "")%string; congruence.
Qed.

(** The registry of the model knows no path for a name that is not one of
    its keys. *)
Lemma get_voice_path_absent (lib : VoiceLibrary.t) (n : string) :
  ~ In n (VoiceLibrary.names lib) -> VoiceLibrary.get_voice_path lib n = None.
Proof.
  unfold VoiceLibrary.get_voice_path, VoiceLibrary.names.
  induction (VoiceLibrary.voices lib) as [|v vs IH];
    cbn [find map option_map In]; intro Hn.
  - reflexivity.
  - destruct (String.eqb_spec (name v) n) as [Heq|Hne].
    + exfalso. apply Hn. left. exact Heq.
    + apply IH. intro Hin. apply Hn. right. exact Hin.
Qed.

Lemma fallback_resolution_witness :
  _resolve_voice_path example_Config empty_library (Some "nobody"%string)
  = "voice-sample.mp3"%string /\
  _resolve_voice_path example_Config empty_library None
  = "voice-sample.mp3"%string /\
  handle_event example_Config generate_two_samples WyomingConfig_default
    empty_library (SynthesizeEvent (hello_from "nobody"))
  = handle_event example_Config generate_two_samples WyomingConfig_default
      empty_library (SynthesizeEvent hello).
Proof.
  apply (@fallback_resolution _ _ example_Config generate_two_samples
           WyomingConfig_default empty_library "nobody"%string "hello"%string).
  - reflexivity.
  - apply (get_voice_path_absent empty_library). cbn. tauto.
Defined.

(* ================================================================== *)
(** * The capability description *)
(* ================================================================== *)

(** C10: the description lists the voice ["default"], installed, and
    after it one voice per entry of [list_voices()], in that order: one
    more voice than the library has. *)
Theorem create_info_voices
        (L : Type) (API : VoiceLibraryAPI L) (config : WyomingConfig)
        (voice_library : L) :
  exists program,
    srv_info (ChatterboxWyomingServer_init config voice_library)
    = mkInfo [program] /\
    tp_voices program
    = mkTtsVoice "default" "Default Chatterbox voice" true
        :: map (fun v => mkTtsVoice (name v)
                           ("Custom voice: " ++ name v)%string true)
               (list_voices voice_library) /\
    List.length (tp_voices program)
    = S (List.length (list_voices voice_library)).
Proof.
  eexists. split; [reflexivity|]. cbn [tp_voices app]. split; [reflexivity|].
  cbn [List.length]. rewrite length_map. reflexivity.
Qed.

(** C2, as stated, fails: discovery adds the voice ["alice"] after startup;
    the description that the server holds does not name it, and the
    handler has no answer to a describe event. *)
Lemma description_misses_later_voice :
  In "alice"%string (map name (list_voices (the_library process_after_discovery)))
  /\ ~ In "alice"%string
       (advertised_voices (srv_info (the_server process_after_discovery)))
  /\ server_handle_event example_Config generate_two_samples
       process_after_discovery (OtherEvent "describe") = Ok None.
Proof.
  split; [vm_compute; left; reflexivity|].
  split; [|vm_compute; reflexivity].
  vm_compute. intros [Hd|[]]. discriminate Hd.
Qed.

(** C2, amended: the description is built once, when the server is
    constructed, from [list_voices()] as it is then; whatever happens to
    the voice library afterwards, the server holds that same description,
    and [handle_event] answers a describe event with [None]. *)
Theorem description_is_built_at_startup
        (L : Type) (API : VoiceLibraryAPI L) (Config : AppConfig)
        (generate : Generate) (config : WyomingConfig) (voice_library : L)
        (later : list L) :
  srv_info (the_server
              (fold_left library_changed later (startup config voice_library)))
  = _create_info voice_library /\
  server_handle_event Config generate
    (fold_left library_changed later (startup config voice_library))
    (OtherEvent "describe") = Ok None.
Proof.
  split; [|reflexivity].
  assert (Hinv : forall p,
             the_server (fold_left library_changed later p) = the_server p).
  { induction later as [|lib later' IH]; intro p; cbn [fold_left].
    - reflexivity.
    - rewrite IH. reflexivity. }
  rewrite Hinv. reflexivity.
Qed.

(* ================================================================== *)
(** * Discovery *)
(* ================================================================== *)

Section DiscoveryLemmas.
Import VoiceLibrary.
Variable audio_extensions : list string.
Variable structurally_valid : DirEntry -> bool.
Variable default_language : string.

Lemma mem_In n l : mem n l = true <-> In n l.
Proof.
  unfold mem. rewrite existsb_exists. split.
  - intros (x & Hin & Heq). apply String.eqb_eq in Heq. subst. exact Hin.
  - intro Hin. exists n. split; [exact Hin|apply String.eqb_refl].
Qed.

Lemma names_snoc lib v :
  names (mk (voices_dir lib) (voices lib ++ [v]) (default_voice lib))
  = names lib ++ [name v].
Proof. unfold names. cbn [voices]. rewrite map_app. reflexivity. Qed.

(** Discovery only adds keys. *)
Lemma discover_entries_names_grow entries :
  forall lib now acc n,
    In n (names lib) ->
    In n (names (fst (discover_entries audio_extensions structurally_valid
                        entries lib default_language now acc))).
Proof.
  induction entries as [|e rest IH]; intros lib now acc n Hn;
    cbn [discover_entries fst].
  - exact Hn.
  - destruct (is_audio audio_extensions e); [|apply IH; exact Hn].
    destruct (mem (stem (filename e)) (names lib)); [apply IH; exact Hn|].
    destruct (structurally_valid e); apply IH; [|exact Hn].
    rewrite names_snoc. apply in_or_app. left. exact Hn.
Qed.

(** A name that is a key when discovery starts is reported in neither
    list, unless it was in the list already. *)
Lemma discover_entries_skips_known entries :
  forall lib now acc n,
    In n (names lib) ->
    (In n (imported (snd (discover_entries audio_extensions structurally_valid
                            entries lib default_language now acc)))
     -> In n (imported acc)) /\
    (In n (skipped (snd (discover_entries audio_extensions structurally_valid
                           entries lib default_language now acc)))
     -> In n (skipped acc)).
Proof.
  induction entries as [|e rest IH]; intros lib now acc n Hn;
    cbn [discover_entries snd].
  - split; intro Hin; exact Hin.
  - destruct (is_audio audio_extensions e); [|apply IH; exact Hn].
    destruct (mem (stem (filename e)) (names lib)) eqn:Hmem;
      [apply IH; exact Hn|].
    assert (Hne : stem (filename e) <> n).
    { intro Heq. subst n. apply mem_In in Hn. congruence. }
    destruct (structurally_valid e).
    + destruct (IH (mk (voices_dir lib)
                      (voices lib ++
                         [discovered_profile lib e default_language now])
                      (default_voice lib))
                   now
                   (mkResult (imported acc ++ [stem (filename e)])
                      (skipped acc)) n) as [Hi Hs].
      { rewrite names_snoc. apply in_or_app. left. exact Hn. }
      split.
      * intro Hin. apply Hi in Hin. cbn [imported] in Hin.
        apply in_app_or in Hin. destruct Hin as [Hin|[Heq|[]]];
          [exact Hin|contradiction].
      * exact Hs.
    + destruct (IH lib now
                   (mkResult (imported acc)
                      (skipped acc ++ [stem (filename e)])) n Hn)
        as [Hi Hs].
      split.
      * exact Hi.
      * intro Hin. apply Hs in Hin. cbn [skipped] in Hin.
        apply in_app_or in Hin. destruct Hin as [Hin|[Heq|[]]];
          [exact Hin|contradiction].
Qed.

(** After discovery, every valid audio file of the directory has its name
    among the keys. *)
Lemma discover_entries_registers entries :
  forall lib now acc e,
    In e entries ->
    is_audio audio_extensions e = true ->
    structurally_valid e = true ->
    In (stem (filename e))
       (names (fst (discover_entries audio_extensions structurally_valid
                      entries lib default_language now acc))).
Proof.
  induction entries as [|e0 rest IH]; intros lib now acc e Hin Ha Hv;
    [destruct Hin|].
  cbn [discover_entries].
  destruct Hin as [->|Hin].
  - rewrite Ha.
    destruct (mem (stem (filename e)) (names lib)) eqn:Hmem.
    + apply discover_entries_names_grow. apply mem_In. exact Hmem.
    + rewrite Hv. apply discover_entries_names_grow.
      rewrite names_snoc. apply in_or_app. right. left. reflexivity.
  - destruct (is_audio audio_extensions e0); [|apply IH; assumption].
    destruct (mem (stem (filename e0)) (names lib)); [apply IH; assumption|].
    destruct (structurally_valid e0); apply IH; assumption.
Qed.

(** When every valid audio file is a key already, discovery imports
    nothing. *)
Lemma discover_entries_nothing_new entries :
  forall lib now acc,
    (forall e, In e entries -> is_audio audio_extensions e = true ->
               structurally_valid e = true ->
               In (stem (filename e)) (names lib)) ->
    imported (snd (discover_entries audio_extensions structurally_valid
                     entries lib default_language now acc))
    = imported acc.
Proof.
  induction entries as [|e rest IH]; intros lib now acc Hall;
    cbn [discover_entries snd].
  - reflexivity.
  - assert (Hrest : forall e', In e' rest ->
                      is_audio audio_extensions e' = true ->
                      structurally_valid e' = true ->
                      In (stem (filename e')) (names lib)).
    { intros e' Hin. apply Hall. right. exact Hin. }
    destruct (is_audio audio_extensions e) eqn:Ha; [|apply IH; exact Hrest].
    destruct (mem (stem (filename e)) (names lib)) eqn:Hmem;
      [apply IH; exact Hrest|].
    destruct (structurally_valid e) eqn:Hv.
    + exfalso. specialize (Hall e (or_introl eq_refl) Ha Hv).
      apply mem_In in Hall. congruence.
    + rewrite IH by exact Hrest. reflexivity.
Qed.
End DiscoveryLemmas.

(** The scenarios of [tests/test_voice_discovery.py], on the model. *)
Example test_discover_empty_directory :
  snd (VoiceLibrary.discover_and_import_voices example_extensions nonempty_file
         empty_library [] "en" 0)
  = VoiceLibrary.mkResult [] [].
Proof. reflexivity. Qed.

Example test_discover_skips_non_audio_files :
  snd (VoiceLibrary.discover_and_import_voices example_extensions nonempty_file
         empty_library
         [VoiceLibrary.mkDirEntry "readme.txt" [x74];
          VoiceLibrary.mkDirEntry "data.json" [x7b; x7d];
          VoiceLibrary.mkDirEntry "image.png" [x50; x4e; x47];
          VoiceLibrary.mkDirEntry "voice.wav" [x52; x49; x46; x46]]
         "en" 0)
  = VoiceLibrary.mkResult ["voice"%string] [].
Proof. vm_compute. reflexivity. Qed.

Example test_discover_handles_special_characters_in_filename :
  snd (VoiceLibrary.discover_and_import_voices example_extensions nonempty_file
         empty_library
         [VoiceLibrary.mkDirEntry "my_voice-v2.wav" [x52; x49; x46; x46]]
         "en" 0)
  = VoiceLibrary.mkResult ["my_voice-v2"%string] [].
Proof. vm_compute. reflexivity. Qed.

Example test_discover_skips_existing_voices :
  let dir := [VoiceLibrary.mkDirEntry "existing.wav" [x52; x49; x46; x46]] in
  let first :=
    VoiceLibrary.discover_and_import_voices example_extensions nonempty_file
      empty_library dir "en" 0 in
  VoiceLibrary.imported (snd first) = ["existing"%string] /\
  snd (VoiceLibrary.discover_and_import_voices example_extensions nonempty_file
         (fst first) dir "en" 1)
  = VoiceLibrary.mkResult [] [].
Proof. vm_compute. split; reflexivity. Qed.

(** C8: (modelled from the spec) the second of two discoveries over the
    same directory imports nothing, and a name that is a key of the
    registry when it starts is in neither of its two lists. *)
Theorem discovery_twice
        (audio_extensions : list string)
        (structurally_valid : VoiceLibrary.DirEntry -> bool)
        (lib : VoiceLibrary.t) (dir : list VoiceLibrary.DirEntry)
        (language1 language2 : string) (now1 now2 : Z) :
  let first :=
    VoiceLibrary.discover_and_import_voices audio_extensions structurally_valid
      lib dir language1 now1 in
  let second :=
    VoiceLibrary.discover_and_import_voices audio_extensions structurally_valid
      (fst first) dir language2 now2 in
  VoiceLibrary.imported (snd second) = [] /\
  forall n, In n (VoiceLibrary.names (fst first)) ->
            ~ In n (VoiceLibrary.imported (snd second)) /\
            ~ In n (VoiceLibrary.skipped (snd second)).
Proof.
  cbv zeta. unfold VoiceLibrary.discover_and_import_voices. split.
  - rewrite discover_entries_nothing_new; [reflexivity|].
    intros e Hin Ha Hv. apply discover_entries_registers; assumption.
  - intros n Hn.
    destruct (discover_entries_skips_known audio_extensions structurally_valid
                language2 dir _ now2 (VoiceLibrary.mkResult [] []) n Hn)
      as [Hi Hs].
    split; intro Hin; [apply Hi in Hin|apply Hs in Hin]; exact Hin.
Qed.

Lemma discovery_twice_witness :
  VoiceLibrary.imported
    (snd (VoiceLibrary.discover_and_import_voices example_extensions
            nonempty_file library_after_discovery example_dir "en" 1700000060))
  = [] /\
  ~ In "alice"%string
      (VoiceLibrary.imported
         (snd (VoiceLibrary.discover_and_import_voices example_extensions
                 nonempty_file library_after_discovery example_dir "en"
                 1700000060))) /\
  ~ In "alice"%string
      (VoiceLibrary.skipped
         (snd (VoiceLibrary.discover_and_import_voices example_extensions
                 nonempty_file library_after_discovery example_dir "en"
                 1700000060))).
Proof.
  split.
  - exact (proj1 (discovery_twice example_extensions nonempty_file
                    empty_library example_dir "en" "en" 1700000000
                    1700000060)).
  - apply (proj2 (discovery_twice example_extensions nonempty_file
                    empty_library example_dir "en" "en" 1700000000
                    1700000060) "alice"%string).
    vm_compute. left. reflexivity.
Defined.

(* ================================================================== *)
(** * Requests in flight *)
(* ================================================================== *)

Lemma in_flight_app a b : in_flight (a ++ b) = (in_flight a + in_flight b)%nat.
Proof. unfold in_flight. rewrite filter_app, length_app. reflexivity. Qed.

Lemma nth_error_middle {A} (pre : list A) x post :
  nth_error (pre ++ x :: post) (List.length pre) = Some x.
Proof.
  rewrite nth_error_app2 by lia. rewrite Nat.sub_diag. reflexivity.
Qed.

Lemma set_nth_middle {A} (pre : list A) x y post :
  set_nth (List.length pre) y (pre ++ x :: post) = pre ++ y :: post.
Proof.
  induction pre as [|z pre IH]; cbn [List.length app set_nth].
  - reflexivity.
  - rewrite IH. reflexivity.
Qed.

Lemma bind_assoc {A B C} (m : result A) (f : A -> result B)
      (g : B -> result C) :
  bind (bind m f) g = bind m (fun x => bind (f x) g).
Proof. destruct m; reflexivity. Qed.

Section SchedulingLemmas.
Context {L : Type} `{VoiceLibraryAPI L}.
Variable Config : AppConfig.
Context {S : Type}.
Variable engine : Engine S.
Variable config : WyomingConfig.
Variable voice_library : L.
Variable max_workers : nat.

Abbreviation step := (step_task Config engine config voice_library max_workers).
Abbreviation run_ := (run Config engine config voice_library max_workers).
Abbreviation queued_ := (queued Config voice_library).
Abbreviation generating_ := (generating Config voice_library).
Abbreviation served_ := (served Config engine config voice_library).
Abbreviation enter tx p :=
  (engine_enter engine tx p (EXAGGERATION Config) (CFG_WEIGHT Config)
     (TEMPERATURE Config)).
Abbreviation leave tx p :=
  (engine_leave engine tx p (EXAGGERATION Config) (CFG_WEIGHT Config)
     (TEMPERATURE Config)).

Lemma run_app s1 s2 st : run_ (s1 ++ s2) st = run_ s2 (run_ s1 st).
Proof. unfold run. apply fold_left_app. Qed.

Lemma in_flight_received requests : in_flight (map Received requests) = O.
Proof. induction requests as [|r rs IH]; [reflexivity|exact IH]. Qed.

Lemma in_flight_queued requests : in_flight (map queued_ requests) = O.
Proof. induction requests as [|r rs IH]; [reflexivity|exact IH]. Qed.

Lemma in_flight_generating requests :
  in_flight (map generating_ requests) = List.length requests.
Proof.
  induction requests as [|r rs IH]; [reflexivity|].
  unfold in_flight in *. cbn [map generating filter is_generating List.length].
  rewrite IH. reflexivity.
Qed.

(** The steps of a request, at its place among the others. *)
Lemma step_received pre r post q s :
  step (List.length pre) (mkLoop (pre ++ Received r :: post) q s)
  = mkLoop (pre ++ queued_ r :: post) (q ++ [List.length pre]) s.
Proof.
  unfold step_task. cbn [tasks work_queue engine_state].
  rewrite nth_error_middle, set_nth_middle. reflexivity.
Qed.

(** A call at the head of the queue starts when a thread is free. *)
Lemma step_queued_starts pre tx p post q s :
  (in_flight pre + in_flight post < max_workers)%nat ->
  step (List.length pre)
    (mkLoop (pre ++ Queued tx p :: post) (List.length pre :: q) s)
  = mkLoop (pre ++ Generating tx p :: post) q (enter tx p s).
Proof.
  intro Hfree. unfold step_task. cbn [tasks work_queue engine_state].
  rewrite nth_error_middle, in_flight_app, Nat.eqb_refl.
  change (in_flight (Queued tx p :: post)) with (in_flight post).
  destruct (Nat.ltb_spec (in_flight pre + in_flight post) max_workers)
    as [_|Hge]; [|lia].
  cbn [andb]. rewrite set_nth_middle. reflexivity.
Qed.

(** A call that finds every thread busy stays in the queue. *)
Lemma step_queued_waits i st tx p :
  nth_error (tasks st) i = Some (Queued tx p) ->
  (max_workers <= in_flight (tasks st))%nat ->
  step i st = st.
Proof.
  intros Hnth Hfull. unfold step_task. rewrite Hnth.
  destruct (work_queue st) as [|first rest]; [reflexivity|].
  destruct (Nat.ltb_spec (in_flight (tasks st)) max_workers) as [Hlt|_];
    [lia|].
  rewrite andb_false_r. reflexivity.
Qed.

Lemma step_generating pre tx p post q s :
  step (List.length pre) (mkLoop (pre ++ Generating tx p :: post) q s)
  = mkLoop (pre ++ Returned (snd (leave tx p s)) :: post) q
      (fst (leave tx p s)).
Proof.
  unfold step_task. cbn [tasks work_queue engine_state].
  rewrite nth_error_middle.
  destruct (leave tx p s) as [s' audio].
  rewrite set_nth_middle. reflexivity.
Qed.

Lemma step_returned pre audio post q s :
  step (List.length pre) (mkLoop (pre ++ Returned audio :: post) q s)
  = mkLoop (pre ++ Done (respond config audio) :: post) q s.
Proof.
  unfold step_task. cbn [tasks work_queue engine_state].
  rewrite nth_error_middle, set_nth_middle. reflexivity.
Qed.

Lemma step_done pre response post q s :
  step (List.length pre) (mkLoop (pre ++ Done response :: post) q s)
  = mkLoop (pre ++ Done response :: post) q s.
Proof.
  unfold step_task. cbn [tasks work_queue engine_state].
  rewrite nth_error_middle. reflexivity.
Qed.

(** Every request is taken up to its call, in the order of arrival. *)
Lemma run_submits requests :
  forall pre q s,
    run_ (seq (List.length pre) (List.length requests))
      (mkLoop (pre ++ map Received requests) q s)
    = mkLoop (pre ++ map queued_ requests)
        (q ++ seq (List.length pre) (List.length requests)) s.
Proof.
  induction requests as [|r rs IH]; intros pre q s.
  - cbn [List.length seq map run fold_left]. rewrite !app_nil_r. reflexivity.
  - cbn [List.length seq map run fold_left].
    rewrite step_received.
    specialize (IH (pre ++ [queued_ r]) (q ++ [List.length pre]) s).
    rewrite length_app, Nat.add_1_r, <- !app_assoc in IH. exact IH.
Qed.

(** The engine once the calls of [requests] have entered it in turn. *)
Let entered (requests : list Synthesize) (s : S) : S :=
  fold_left
    (fun s r =>
       enter (text r)
         (_resolve_voice_path Config voice_library (requested_voice_name r)) s)
    requests s.

(** As long as there are threads, the calls at the head of the queue
    start, one after another, and none of them has returned. *)
Lemma run_starts requests :
  forall pre post q s,
    (in_flight pre + List.length requests + in_flight post
     <= max_workers)%nat ->
    run_ (seq (List.length pre) (List.length requests))
      (mkLoop (pre ++ map queued_ requests ++ post)
         (seq (List.length pre) (List.length requests) ++ q) s)
    = mkLoop (pre ++ map generating_ requests ++ post) q
        (entered requests s).
Proof.
  induction requests as [|r rs IH]; intros pre post q s Hw; [reflexivity|].
  cbn [List.length seq map run fold_left app entered] in *.
  unfold queued at 1. rewrite step_queued_starts
    by (rewrite in_flight_app, in_flight_queued; lia).
  specialize (IH (pre ++ [generating_ r]) post q
                (enter (text r)
                   (_resolve_voice_path Config voice_library
                      (requested_voice_name r)) s)).
  rewrite length_app, Nat.add_1_r, <- !app_assoc in IH.
  apply IH. rewrite in_flight_app.
  unfold in_flight at 2. cbn [generating filter is_generating List.length].
  lia.
Qed.

(** With every thread busy, the calls in the queue stay where they are. *)
Lemma run_waits schedule :
  forall st,
    (max_workers <= in_flight (tasks st))%nat ->
    (forall i, In i schedule ->
               exists tx p, nth_error (tasks st) i = Some (Queued tx p)) ->
    run_ schedule st = st.
Proof.
  induction schedule as [|i schedule IH]; intros st Hfull Hq; [reflexivity|].
  cbn [run fold_left].
  destruct (Hq i (or_introl eq_refl)) as (tx & p & Hnth).
  rewrite (step_queued_waits _ _ _ _ Hnth Hfull).
  apply IH; [exact Hfull|]. intros j Hj. apply Hq. right. exact Hj.
Qed.

(** The calls that are executing return one after another, and each
    request gets its answer. *)
Lemma run_returns requests :
  forall pre post q s,
  exists ts s',
    run_ (flat_map (fun i => [i; i; i])
            (seq (List.length pre) (List.length requests)))
      (mkLoop (pre ++ map generating_ requests ++ post) q s)
    = mkLoop (pre ++ ts ++ post) q s' /\
    Forall2 served_ requests ts /\ in_flight ts = O.
Proof.
  induction requests as [|r rs IH]; intros pre post q s.
  - exists [], s. repeat split. constructor.
  - cbn [List.length seq flat_map app map run fold_left].
    unfold generating at 1.
    rewrite step_generating, step_returned, step_done.
    set (p := _resolve_voice_path Config voice_library
                (requested_voice_name r)).
    set (d := Done (respond config (snd (leave (text r) p s)))).
    destruct (IH (pre ++ [d]) post q (fst (leave (text r) p s)))
      as (ts & s' & Hrun & Hserved & Hfl).
    rewrite length_app, Nat.add_1_r, <- !app_assoc in Hrun.
    exists (d :: ts), s'. split; [exact Hrun|]. split.
    + constructor; [exists s; reflexivity|exact Hserved].
    + exact Hfl.
Qed.

(** With a thread free, the calls that waited are served in turn. *)
Lemma run_serves requests :
  forall pre s,
    in_flight pre = O ->
    (1 <= max_workers)%nat ->
  exists ts s',
    run_ (flat_map (fun i => [i; i; i])
            (seq (List.length pre) (List.length requests)))
      (mkLoop (pre ++ map queued_ requests)
         (seq (List.length pre) (List.length requests)) s)
    = mkLoop (pre ++ ts) [] s' /\
    Forall2 served_ requests ts /\ in_flight ts = O.
Proof.
  induction requests as [|r rs IH]; intros pre s Hpre Hw.
  - exists [], s. repeat split. constructor.
  - cbn [List.length seq flat_map app map run fold_left].
    unfold queued at 1.
    rewrite step_queued_starts by (rewrite Hpre, in_flight_queued; lia).
    rewrite step_generating, step_returned.
    set (p := _resolve_voice_path Config voice_library
                (requested_voice_name r)).
    set (s1 := enter (text r) p s).
    set (d := Done (respond config (snd (leave (text r) p s1)))).
    destruct (IH (pre ++ [d]) (fst (leave (text r) p s1)))
      as (ts & s' & Hrun & Hserved & Hfl); [|exact Hw|].
    { rewrite in_flight_app, Hpre. reflexivity. }
    rewrite length_app, Nat.add_1_r, <- !app_assoc in Hrun.
    exists (d :: ts), s'. split; [exact Hrun|]. split.
    + constructor; [exists s1; reflexivity|exact Hserved].
    + exact Hfl.
Qed.

(** The state once every request has been submitted and every thread has
    taken a call. *)
Lemma run_all_at_once requests s :
  run_ (all_at_once (List.length requests)) (arrivals requests s)
  = mkLoop (map generating_ (firstn max_workers requests)
            ++ map queued_ (skipn max_workers requests))
      (seq max_workers (List.length requests - max_workers))
      (entered (firstn max_workers requests) s).
Proof.
  unfold all_at_once, arrivals. rewrite run_app.
  pose proof (run_submits requests [] [] s) as Hsub.
  cbn [app List.length] in Hsub. rewrite Hsub. clear Hsub.
  set (front := firstn max_workers requests).
  set (back := skipn max_workers requests).
  assert (Hsplit : requests = front ++ back)
    by (symmetry; apply firstn_skipn).
  assert (Hfront : List.length front = Nat.min max_workers (List.length requests))
    by apply length_firstn.
  assert (Hback : List.length back = (List.length requests - max_workers)%nat)
    by apply length_skipn.
  assert (Hlen : List.length requests
                 = (List.length front + List.length back)%nat)
    by (rewrite Hsplit at 1; apply length_app).
  assert (Hq : seq max_workers (List.length requests - max_workers)
               = seq (List.length front) (List.length back)).
  { rewrite <- Hback.
    destruct (Nat.le_gt_cases (List.length requests) max_workers) as [Hle|Hgt].
    - replace (List.length back) with O by lia. reflexivity.
    - replace (List.length front) with max_workers by lia. reflexivity. }
  rewrite Hq. clear Hq.
  rewrite Hlen, seq_app, run_app. cbn [Nat.add].
  rewrite Hsplit at 1. rewrite map_app.
  pose proof (run_starts front [] (map queued_ back)
                (seq (List.length front) (List.length back)) s) as Hst.
  cbn [app List.length] in Hst. rewrite Hst
    by (rewrite in_flight_queued; cbn [in_flight filter List.length]; lia).
  clear Hst.
  destruct (Nat.le_gt_cases (List.length requests) max_workers) as [Hle|Hgt].
  - assert (Hb0 : List.length back = O) by lia.
    rewrite Hb0. reflexivity.
  - assert (Hf : List.length front = max_workers) by lia.
    apply run_waits.
    + cbn [tasks]. rewrite in_flight_app, in_flight_generating. lia.
    + intros i Hi. apply in_seq in Hi. cbn [tasks].
      rewrite nth_error_app2 by (rewrite length_map; lia).
      rewrite length_map.
      destruct (nth_error back (i - List.length front)) as [r|] eqn:Hr.
      * exists (text r),
          (_resolve_voice_path Config voice_library (requested_voice_name r)).
        rewrite nth_error_map, Hr. reflexivity.
      * apply nth_error_None in Hr. lia.
Qed.

(** No request is turned away: once the calls that are executing have
    returned and the calls that waited have had their turn, every request
    has its answer and the queue is empty. *)
Lemma run_serves_all requests s :
  (1 <= max_workers)%nat ->
  exists ts s',
    run_ (all_at_once (List.length requests)
          ++ one_after_another (List.length requests))
      (arrivals requests s)
    = mkLoop ts [] s' /\
    Forall2 served_ requests ts.
Proof.
  intro Hw. rewrite run_app, run_all_at_once. unfold one_after_another.
  set (front := firstn max_workers requests).
  set (back := skipn max_workers requests).
  assert (Hsplit : requests = front ++ back)
    by (symmetry; apply firstn_skipn).
  assert (Hback : List.length back = (List.length requests - max_workers)%nat)
    by apply length_skipn.
  assert (Hfront : List.length front = Nat.min max_workers (List.length requests))
    by apply length_firstn.
  assert (Hlen : List.length requests
                 = (List.length front + List.length back)%nat)
    by (rewrite Hsplit at 1; apply length_app).
  assert (Hq : seq max_workers (List.length requests - max_workers)
               = seq (List.length front) (List.length back)).
  { rewrite <- Hback.
    destruct (Nat.le_gt_cases (List.length requests) max_workers) as [Hle|Hgt].
    - replace (List.length back) with O by lia. reflexivity.
    - replace (List.length front) with max_workers by lia. reflexivity. }
  rewrite Hq, Hlen, seq_app, flat_map_app, run_app. cbn [Nat.add].
  destruct (run_returns front [] (map queued_ back)
              (seq (List.length front) (List.length back))
              (entered front s))
    as (ts1 & s1 & Hrun1 & Hserved1 & Hfl1).
  cbn [app List.length] in Hrun1. rewrite Hrun1. clear Hrun1.
  assert (Hl1 : List.length ts1 = List.length front)
    by (symmetry; exact (Forall2_length Hserved1)).
  destruct (run_serves back ts1 s1 Hfl1 Hw)
    as (ts2 & s2 & Hrun2 & Hserved2 & _).
  rewrite Hl1 in Hrun2. rewrite Hrun2.
  exists (ts1 ++ ts2), s2. split; [reflexivity|].
  rewrite Hsplit. apply Forall2_app; assumption.
Qed.

(** When the engine gives every call what [generate] gives, an answer is
    the answer of [_handle_synthesize]. *)
Lemma served_returns_as (generate : Generate) requests ts :
  returns_as engine generate ->
  Forall2 served_ requests ts ->
  ts = map (fun r => Done (_handle_synthesize Config generate config
                             voice_library r)) requests.
Proof.
  intros Hret Hall. induction Hall as [|r t rs ts (s & ->) _ IH];
    [reflexivity|].
  cbn [map]. rewrite IH, Hret. f_equal. f_equal.
  unfold respond, _handle_synthesize, _generate_speech. cbv zeta.
  rewrite bind_assoc. reflexivity.
Qed.
End SchedulingLemmas.




(* ================================================================== *)
(** * Further lemmas: containers of any length *)
(* ================================================================== *)

Section WaveAnyLength.

#[local] Arguments byte_of_Z : simpl never.
#[local] Arguments le_int : simpl never.
#[local] Arguments len : simpl nomatch.
#[local] Arguments Z.div : simpl nomatch.
#[local] Arguments Z.mul : simpl nomatch.
#[local] Arguments Z.add : simpl nomatch.
#[local] Arguments Z.sub : simpl nomatch.
#[local] Arguments Z.modulo : simpl nomatch.
#[local] Arguments Z.eqb : simpl nomatch.
#[local] Arguments Z.ltb : simpl nomatch.
#[local] Arguments Z.leb : simpl nomatch.
#[local] Arguments Z.gtb : simpl nomatch.
#[local] Arguments Z.geb : simpl nomatch.
#[local] Arguments Z.odd : simpl nomatch.

Ltac nat_literals :=
  repeat match goal with
  | |- context [Z.to_nat (Zpos ?p)] =>
    let n := eval vm_compute in (Z.to_nat (Zpos p)) in
    change (Z.to_nat (Zpos p)) with n
  | |- context [Z.to_nat 0] => change (Z.to_nat 0) with O
  end.

Ltac settle :=
  repeat match goal with
  | |- context [Z.gtb ?a ?b] => rewrite (Z.gtb_ltb a b)
  | |- context [Z.geb ?a ?b] => rewrite (Z.geb_leb a b)
  | |- context [Z.ltb ?a ?b] =>
    first [ rewrite (proj2 (Z.ltb_lt a b)) by lia
          | rewrite (proj2 (Z.ltb_ge a b)) by lia ]
  | |- context [Z.leb ?a ?b] =>
    first [ rewrite (proj2 (Z.leb_le a b)) by lia
          | rewrite (proj2 (Z.leb_gt a b)) by lia ]
  | |- context [Z.eqb ?a ?b] =>
    first [ rewrite (proj2 (Z.eqb_eq a b)) by lia
          | rewrite (proj2 (Z.eqb_neq a b)) by lia ]
  end.

Ltac wstep :=
  repeat (progress
            (cbn -[le_bytes BytesIO_write Z.to_nat b_ Z.pow]; settle)).

(** The header that [_write_header] packs needs only a valid format and a
    data length that fits. *)
Lemma wave_encode_any_length c w r s :
  valid_format c w r ->
  36 + len s < 2 ^ 32 ->
  wave_encode c w r s = Ok (wav_header c w r (len s) ++ s).
Proof.
  intros Hv Hlen.
  destruct (Z.eq_dec (len s mod (c * w)) 0) as [Hal|Hnal];
    [apply wave_encode_whole_frames; assumption|].
  pose proof Hv as (Hc & Hw & Hr & Hcw & Hcrw).
  assert (Hs : 0 <= len s) by (unfold len; lia).
  assert (Hcw0 : 0 < c * w) by nia.
  assert (Hfl : 0 <= len s / (c * w) * c * w < len s).
  { pose proof (Z.div_mod (len s) (c * w) ltac:(lia)) as Hdm.
    pose proof (Z.mod_pos_bound (len s) (c * w) Hcw0).
    pose proof (Z.div_pos (len s) (c * w) Hs Hcw0). nia. }
  unfold wave_encode, with_wave_write.
  unfold setnchannels, setsampwidth, setframerate, writeframes, writeframesraw,
    _ensure_header_written, _write_header, Wave_write_close, _patchheader,
    Wave_write_initfp, file_write, file_seek, wbind, wget, wput, wraise, wret,
    wlift.
  wstep.
  rewrite (pack_header_ok _ _ _ _ (proj1 Hfl) ltac:(lia) Hv).
  rewrite (pack_L_ok (len s / (c * w) * c * w)) by lia.
  wstep.
  rewrite (pack_L_ok (36 + len s)), (pack_L_ok (len s)) by lia.
  wstep.
  change (mkBytesIO [] 0) with (mkBytesIO [] (len [])).
  rewrite !BytesIO_write_at_end.
  cbn [bio_buf bio_pos].
  unfold BytesIO_write.
  repeat (progress (cbn -[Z.to_nat Z.pow]; nat_literals)).
  reflexivity.
Qed.
Ltac rcompute := repeat (progress (nat_literals; cbn -[read_chunks Z.to_nat])).

Section DecodeAnyLength.
Variables z0 z1 z2 z3 k0 k1 k2 k3 t0 t1 n0 n1 f0 f1 f2 f3 : byte.
Variables a0 a1 a2 a3 l0 l1 i0 i1 d0 d1 d2 d3 : byte.
Variable s : bytes.
Variables c w r : Z.

Hypothesis Hz : le_int [z0; z1; z2; z3] = 36 + len s.
Hypothesis Hk : le_int [k0; k1; k2; k3] = 16.
Hypothesis Ht : le_int [t0; t1] = WAVE_FORMAT_PCM.
Hypothesis Hn : le_int [n0; n1] = c.
Hypothesis Hf : le_int [f0; f1; f2; f3] = r.
Hypothesis Hi : le_int [i0; i1] = w * 8.
Hypothesis Hd : le_int [d0; d1; d2; d3] = len s.
Hypothesis Hc : 1 <= c.
Hypothesis Hw : 1 <= w.

Ltac read_header Hsw :=
  repeat (progress
            (unfold Chunk_init, Chunk_read, Chunk_skip, Chunk_seek,
               _read_fmt_chunk;
             rcompute;
             rewrite ?Hz, ?Hk, ?Ht, ?Hn, ?Hf, ?Hi, ?Hd, ?Hsw;
             settle;
             rewrite ?read_chunks_S)).

(** The reader hands back the whole frames of the data chunk. *)
Lemma wave_decode_buffer_any_length :
  wave_decode
    (["R"; "I"; "F"; "F"; z0; z1; z2; z3; "W"; "A"; "V"; "E";
      "f"; "m"; "t"; " "; k0; k1; k2; k3; t0; t1; n0; n1; f0; f1; f2; f3;
      a0; a1; a2; a3; l0; l1; i0; i1; "d"; "a"; "t"; "a"; d0; d1; d2; d3]%byte
     ++ s)
  = Ok (r, w, c, firstn (Z.to_nat (len s / (c * w) * (c * w))) s).
Proof.
  assert (Hs : 0 <= len s) by (unfold len; lia).
  assert (Hcw0 : 0 < c * w) by nia.
  assert (Hsw : (w * 8 + 7) / 8 = w)
    by (symmetry; apply Z.div_unique with 7; lia).
  assert (Hfl : 0 <= len s / (c * w) * (c * w) <= len s).
  { pose proof (Z.div_mod (len s) (c * w) ltac:(lia)) as Hdm.
    pose proof (Z.mod_pos_bound (len s) (c * w) Hcw0).
    pose proof (Z.div_pos (len s) (c * w) Hs ltac:(lia)). nia. }
  unfold wave_decode, Wave_read_initfp, Wave_read_initfp_turns, readframes.
  destruct (Z.eq_dec (len s / (c * w)) 0) as [Hn0|Hnn].
  - rewrite Hn0. change (Z.to_nat (0 * (c * w))) with O. cbn [firstn].
    destruct (Z.eq_dec (len s) 0) as [Hz0|Hnz].
    + assert (s = []) by (apply length_zero_iff_nil; unfold len in Hz0; lia).
      subst s. read_header Hsw. rewrite ?Hn0. rcompute. reflexivity.
    + read_header Hsw. rewrite ?Hn0. rcompute. reflexivity.
  - assert (Hpos : 0 < len s / (c * w) * (c * w)).
    { pose proof (Z.div_pos (len s) (c * w) Hs ltac:(lia)). nia. }
    read_header Hsw.
    repeat match goal with
           | |- context [if ?b then _ else _] => destruct b; rcompute
           end.
    all: reflexivity.
Qed.
End DecodeAnyLength.

End WaveAnyLength.

Lemma wave_decode_any_length c w r s :
  valid_format c w r ->
  36 + len s < 2 ^ 32 ->
  wave_decode (wav_header c w r (len s) ++ s)
  = Ok (r, w, c, whole_frames_prefix c w s).
Proof.
  intros (Hc & Hw & Hr & Hcw & Hcrw) Hlen.
  assert (Hs : 0 <= len s) by (unfold len; lia).
  unfold wav_header, whole_frames_prefix.
  cbn [le_bytes b_ list_byte_of_string app].
  apply wave_decode_buffer_any_length; try assumption; try lia.
  - apply le_int_4. lia.
  - apply (le_int_4 16). lia.
  - apply le_int_2. unfold WAVE_FORMAT_PCM. lia.
  - apply le_int_2. nia.
  - apply le_int_4. lia.
  - apply le_int_2. lia.
  - apply le_int_4. lia.
Qed.

Lemma len_wav_header c w r n : len (wav_header c w r n) = 44.
Proof. reflexivity. Qed.

Lemma whole_frames_prefix_length c w s :
  0 < c * w ->
  len (whole_frames_prefix c w s) = len s / (c * w) * (c * w) /\
  len s - c * w < len (whole_frames_prefix c w s) <= len s.
Proof.
  intro Hcw. unfold whole_frames_prefix.
  assert (Hs : 0 <= len s) by (unfold len; lia).
  pose proof (Z.div_mod (len s) (c * w) ltac:(lia)) as Hdm.
  pose proof (Z.mod_pos_bound (len s) (c * w) Hcw) as Hmod.
  pose proof (Z.div_pos (len s) (c * w) Hs Hcw) as Hdiv.
  assert (Hfl : 0 <= len s / (c * w) * (c * w) <= len s) by nia.
  assert (Hlen : len (firstn (Z.to_nat (len s / (c * w) * (c * w))) s)
                 = len s / (c * w) * (c * w)).
  { unfold len at 1. rewrite length_firstn. unfold len in *. lia. }
  rewrite Hlen. split; [reflexivity|]. nia.
Qed.

(* ================================================================== *)
(** * Further lemmas: formats that [wave] refuses *)
(* ================================================================== *)

Section WaveRefuses.

Ltac decide_Z :=
  repeat match goal with
  | |- context [Z.gtb ?a ?b] => rewrite (Z.gtb_ltb a b)
  | |- context [Z.geb ?a ?b] => rewrite (Z.geb_leb a b)
  | |- context [Z.ltb ?a ?b] =>
    first [ rewrite (proj2 (Z.ltb_lt a b)) by lia
          | rewrite (proj2 (Z.ltb_ge a b)) by lia ]
  | |- context [Z.leb ?a ?b] =>
    first [ rewrite (proj2 (Z.leb_le a b)) by lia
          | rewrite (proj2 (Z.leb_gt a b)) by lia ]
  | |- context [Z.eqb ?a ?b] =>
    first [ rewrite (proj2 (Z.eqb_eq a b)) by lia
          | rewrite (proj2 (Z.eqb_neq a b)) by lia ]
  end.

Ltac run_writer :=
  unfold wave_encode, with_wave_write;
  unfold setnchannels, setsampwidth, setframerate, writeframes, writeframesraw,
    _ensure_header_written, _write_header, Wave_write_close, _patchheader,
    Wave_write_initfp, file_write, file_seek, wbind, wget, wput, wraise, wret,
    wlift;
  repeat (progress
            (cbn -[le_bytes BytesIO_write Z.to_nat b_ Z.pow Z.add Z.mul Z.div
                   Z.sub Z.eqb Z.ltb Z.leb Z.gtb Z.geb pack_header pack_L];
             decide_Z)).

(** [setnchannels] raises, and [close()], called on the way out of the
    [with] block, raises in its place. *)
Lemma wave_encode_bad_channels c w r s :
  c < 1 ->
  wave_encode c w r s = Raise (WaveError "# channels not specified").
Proof. intro Hc. run_writer. reflexivity. Qed.

Lemma wave_encode_bad_width c w r s :
  1 <= c -> w < 1 \/ 4 < w ->
  wave_encode c w r s = Raise (WaveError "sample width not specified").
Proof.
  intros Hc Hw. run_writer.
  assert (Hor : (w <? 1) || (4 <? w) = true).
  { apply orb_true_iff. destruct Hw; [left; apply Z.ltb_lt|right; apply Z.ltb_lt];
      assumption. }
  rewrite Hor. run_writer. reflexivity.
Qed.

Lemma wave_encode_bad_rate c w r s :
  1 <= c -> 1 <= w <= 4 -> r <= 0 ->
  wave_encode c w r s = Raise (WaveError "sampling rate not specified").
Proof. intros Hc Hw Hr. run_writer. reflexivity. Qed.

(** A field that does not fit the header makes [struct.pack] raise,
    whatever the data length. *)
Lemma pack_header_overflow dl c w r :
  1 <= c -> 1 <= w <= 4 -> 1 <= r ->
  ~ valid_format c w r ->
  pack_header dl c r w = Raise StructError.
Proof.
  intros Hc Hw Hr Hnv. unfold pack_header, pack_L, pack_H, WAVE_FORMAT_PCM.
  assert (Hcase : 2 ^ 16 <= c \/ 2 ^ 32 <= r \/ 2 ^ 32 <= c * r * w
                  \/ 2 ^ 16 <= c * w).
  { unfold valid_format in Hnv. lia. }
  repeat match goal with
         | |- context [(0 <=? ?a) && (?a <? ?b)] =>
           destruct ((0 <=? a) && (a <? b)) eqn:?; cbn [bind];
             [|reflexivity]
         end.
  exfalso.
  repeat match goal with
         | H : _ && _ = true |- _ =>
           apply andb_true_iff in H; destruct H as [? ?]
         | H : (_ <? _) = true |- _ => apply Z.ltb_lt in H
         | H : (_ <=? _) = true |- _ => apply Z.leb_le in H
         end.
  nia.
Qed.

Lemma wave_encode_overflow c w r s :
  1 <= c -> 1 <= w <= 4 -> 1 <= r ->
  ~ valid_format c w r ->
  wave_encode c w r s = Raise StructError.
Proof.
  intros Hc Hw Hr Hnv. run_writer.
  rewrite !(pack_header_overflow _ _ _ _ Hc Hw Hr Hnv).
  run_writer.
  rewrite !(pack_header_overflow _ _ _ _ Hc Hw Hr Hnv).
  run_writer.
  reflexivity.
Qed.
End WaveRefuses.

(* ================================================================== *)
(** * Further properties: the container and the answer *)
(* ================================================================== *)

(** X1: for a format that [wave] can write and samples below 4 GiB,
    [_generate_speech] returns the 44-byte header that declares the byte
    count of the samples, followed by the samples as the model gave them,
    whether or not they fill whole frames. *)
Theorem generate_speech_container
        (Config : AppConfig) (generate : Generate) (config : WyomingConfig)
        (request_text voice_path : string) (samples : bytes) :
  valid_format (channels config) (sample_width config) (sample_rate config) ->
  generate request_text voice_path (EXAGGERATION Config) (CFG_WEIGHT Config)
    (TEMPERATURE Config) = Ok samples ->
  36 + len samples < 2 ^ 32 ->
  _generate_speech Config generate config request_text voice_path
  = Ok (wav_header (channels config) (sample_width config) (sample_rate config)
          (len samples) ++ samples) /\
  len (wav_header (channels config) (sample_width config) (sample_rate config)
         (len samples) ++ samples) = 44 + len samples.
Proof.
  intros Hv Hgen Hlen. split.
  - unfold _generate_speech. rewrite Hgen. cbn [bind].
    apply wave_encode_any_length; assumption.
  - rewrite len_app, len_wav_header. reflexivity.
Qed.

Lemma generate_speech_container_witness :
  _generate_speech example_Config generate_two_samples WyomingConfig_default
    "hello" "voice-sample.mp3"
  = Ok (wav_header 1 2 24000 4 ++ [x01; x02; x03; x04]) /\
  len (wav_header 1 2 24000 4 ++ [x01; x02; x03; x04]) = 48.
Proof.
  apply (generate_speech_container example_Config generate_two_samples
           WyomingConfig_default "hello" "voice-sample.mp3"
           [x01; x02; x03; x04]).
  - exact valid_format_default.
  - reflexivity.
  - vm_compute. reflexivity.
Defined.

(** X2: for a format that [wave] can write and any samples below 4 GiB,
    the answer to a synthesize request is the stream start with the
    configured rate, width and channels, one chunk with the longest
    prefix of the samples that fills whole frames, and the stream end:
    fewer than one frame of trailing bytes is left out. *)
Theorem answer_carries_whole_frames
        (L : Type) (API : VoiceLibraryAPI L) (Config : AppConfig)
        (generate : Generate) (config : WyomingConfig) (voice_library : L)
        (synthesize : Synthesize) (samples : bytes) :
  valid_format (channels config) (sample_width config) (sample_rate config) ->
  generate (text synthesize)
    (_resolve_voice_path Config voice_library (requested_voice_name synthesize))
    (EXAGGERATION Config) (CFG_WEIGHT Config) (TEMPERATURE Config)
  = Ok samples ->
  36 + len samples < 2 ^ 32 ->
  handle_event Config generate config voice_library (SynthesizeEvent synthesize)
  = Ok (Some [AudioStart (sample_rate config) (sample_width config)
                (channels config);
              AudioChunk
                (whole_frames_prefix (channels config) (sample_width config)
                   samples)
                (sample_rate config) (sample_width config) (channels config);
              AudioStop]) /\
  len samples - channels config * sample_width config
  < len (whole_frames_prefix (channels config) (sample_width config) samples)
  <= len samples.
Proof.
  intros Hv Hgen Hlen. split.
  - unfold handle_event.
    cbn [is_type event_type String.eqb Ascii.eqb Bool.eqb
         Synthesize_from_event bind].
    unfold _handle_synthesize, _generate_speech. cbv zeta.
    rewrite Hgen. cbn [bind].
    rewrite (wave_encode_any_length _ _ _ _ Hv Hlen). cbn [bind].
    unfold _create_audio_response.
    rewrite (wave_decode_any_length _ _ _ _ Hv Hlen). reflexivity.
  - apply whole_frames_prefix_length. destruct Hv as (? & ? & _). nia.
Qed.

Lemma answer_carries_whole_frames_witness :
  handle_event example_Config (fun _ _ _ _ _ => Ok [x01; x02; x03])
    WyomingConfig_default empty_library (SynthesizeEvent hello)
  = Ok (Some [AudioStart 24000 2 1;
              AudioChunk (whole_frames_prefix 1 2 [x01; x02; x03]) 24000 2 1;
              AudioStop]) /\
  len [x01; x02; x03] - 1 * 2
  < len (whole_frames_prefix 1 2 [x01; x02; x03]) <= len [x01; x02; x03].
Proof.
  apply (answer_carries_whole_frames _ _ example_Config
           (fun _ _ _ _ _ => Ok [x01; x02; x03]) WyomingConfig_default
           empty_library hello [x01; x02; x03]).
  - exact valid_format_default.
  - reflexivity.
  - vm_compute. reflexivity.
Defined.

(** X3: when the configured format fails a check of the [wave] setters,
    every synthesize request for which the model returns raises
    [wave.Error], with the message of [close()], not of the setter: too
    few channels, "# channels not specified"; else a sample width outside
    1..4, "sample width not specified"; else a rate of zero or less,
    "sampling rate not specified".  No event is handed back. *)
Theorem refused_format_raises_wave_error
        (L : Type) (API : VoiceLibraryAPI L) (Config : AppConfig)
        (generate : Generate) (config : WyomingConfig) (voice_library : L)
        (synthesize : Synthesize) (samples : bytes) :
  generate (text synthesize)
    (_resolve_voice_path Config voice_library (requested_voice_name synthesize))
    (EXAGGERATION Config) (CFG_WEIGHT Config) (TEMPERATURE Config)
  = Ok samples ->
  (channels config < 1 ->
   handle_event Config generate config voice_library
     (SynthesizeEvent synthesize)
   = Raise (WaveError "# channels not specified")) /\
  (1 <= channels config ->
   sample_width config < 1 \/ 4 < sample_width config ->
   handle_event Config generate config voice_library
     (SynthesizeEvent synthesize)
   = Raise (WaveError "sample width not specified")) /\
  (1 <= channels config -> 1 <= sample_width config <= 4 ->
   sample_rate config <= 0 ->
   handle_event Config generate config voice_library
     (SynthesizeEvent synthesize)
   = Raise (WaveError "sampling rate not specified")).
Proof.
  intro Hgen.
  assert (Hrun : forall e,
             wave_encode (channels config) (sample_width config)
               (sample_rate config) samples = Raise e ->
             handle_event Config generate config voice_library
               (SynthesizeEvent synthesize) = Raise e).
  { intros e Henc. unfold handle_event.
    cbn [is_type event_type String.eqb Ascii.eqb Bool.eqb
         Synthesize_from_event bind].
    unfold _handle_synthesize, _generate_speech. cbv zeta.
    rewrite Hgen. cbn [bind]. rewrite Henc. reflexivity. }
  split; [|split].
  - intro Hc. apply Hrun. apply wave_encode_bad_channels. exact Hc.
  - intros Hc Hw. apply Hrun. apply wave_encode_bad_width; assumption.
  - intros Hc Hw Hr. apply Hrun. apply wave_encode_bad_rate; assumption.
Qed.

Lemma refused_format_raises_wave_error_witness :
  handle_event example_Config generate_two_samples
    (mkWyomingConfig "0.0.0.0" 10200 "default" 24000 2 0) empty_library
    (SynthesizeEvent hello)
  = Raise (WaveError "# channels not specified") /\
  handle_event example_Config generate_two_samples
    (mkWyomingConfig "0.0.0.0" 10200 "default" 24000 8 1) empty_library
    (SynthesizeEvent hello)
  = Raise (WaveError "sample width not specified") /\
  handle_event example_Config generate_two_samples
    (mkWyomingConfig "0.0.0.0" 10200 "default" 0 2 1) empty_library
    (SynthesizeEvent hello)
  = Raise (WaveError "sampling rate not specified").
Proof.
  split; [|split].
  - apply (proj1 (refused_format_raises_wave_error _ _ example_Config
                    generate_two_samples
                    (mkWyomingConfig "0.0.0.0" 10200 "default" 24000 2 0)
                    empty_library hello [x01; x02; x03; x04] eq_refl)).
    cbn. lia.
  - apply (proj1 (proj2 (refused_format_raises_wave_error _ _ example_Config
                    generate_two_samples
                    (mkWyomingConfig "0.0.0.0" 10200 "default" 24000 8 1)
                    empty_library hello [x01; x02; x03; x04] eq_refl)));
      cbn; lia.
  - apply (proj2 (proj2 (refused_format_raises_wave_error _ _ example_Config
                    generate_two_samples
                    (mkWyomingConfig "0.0.0.0" 10200 "default" 0 2 1)
                    empty_library hello [x01; x02; x03; x04] eq_refl)));
      cbn; lia.
Defined.

(** X4: when the configured format passes the setters but a field does
    not fit the header (65536 channels or more, a rate of 2^32 or more, a
    block size of 2^16 or a byte rate of 2^32 or more), every synthesize
    request for which the model returns raises [struct.error]. *)
Theorem oversized_format_raises_struct_error
        (L : Type) (API : VoiceLibraryAPI L) (Config : AppConfig)
        (generate : Generate) (config : WyomingConfig) (voice_library : L)
        (synthesize : Synthesize) (samples : bytes) :
  generate (text synthesize)
    (_resolve_voice_path Config voice_library (requested_voice_name synthesize))
    (EXAGGERATION Config) (CFG_WEIGHT Config) (TEMPERATURE Config)
  = Ok samples ->
  1 <= channels config -> 1 <= sample_width config <= 4 ->
  1 <= sample_rate config ->
  ~ valid_format (channels config) (sample_width config) (sample_rate config) ->
  handle_event Config generate config voice_library (SynthesizeEvent synthesize)
  = Raise StructError.
Proof.
  intros Hgen Hc Hw Hr Hnv. unfold handle_event.
  cbn [is_type event_type String.eqb Ascii.eqb Bool.eqb
       Synthesize_from_event bind].
  unfold _handle_synthesize, _generate_speech. cbv zeta.
  rewrite Hgen. cbn [bind].
  rewrite (wave_encode_overflow _ _ _ _ Hc Hw Hr Hnv). reflexivity.
Qed.

Lemma oversized_format_raises_struct_error_witness :
  handle_event example_Config generate_two_samples
    (mkWyomingConfig "0.0.0.0" 10200 "default" 24000 2 70000) empty_library
    (SynthesizeEvent hello)
  = Raise StructError.
Proof.
  apply (oversized_format_raises_struct_error _ _ example_Config
           generate_two_samples
           (mkWyomingConfig "0.0.0.0" 10200 "default" 24000 2 70000)
           empty_library hello [x01; x02; x03; x04] eq_refl).
  - cbn. lia.
  - cbn. lia.
  - cbn. lia.
  - unfold valid_format. cbn. lia.
Defined.

(* ================================================================== *)
(** * Further properties: voice resolution *)
(* ================================================================== *)

Lemma if_truthy_some o s : if_truthy o = Some s -> o = Some s /\ s <> ""%string.
Proof.
  destruct o as [t|]; cbn [if_truthy]; [|discriminate].
  destruct (String.eqb_spec t "") as [->|Hne]; [discriminate|].
  intros [= ->]. split; [reflexivity|exact Hne].
Qed.

Lemma if_truthy_nonempty s : s <> ""%string -> if_truthy (Some s) = Some s.
Proof.
  intro Hne. cbn [if_truthy].
  destruct (String.eqb_spec s "") as [->|_]; [contradiction|reflexivity].
Qed.

(** X5: whatever is requested, the path that [_resolve_voice_path] returns
    is [Config.VOICE_SAMPLE_PATH] or a non-empty path of the library: the
    path of the requested name, when a name other than ["default"] is
    given, and the path of the library's default voice otherwise.  The
    path of any other voice is never returned. *)
Theorem resolved_path_origin
        (L : Type) (API : VoiceLibraryAPI L) (Config : AppConfig)
        (voice_library : L) (voice_name : option string) :
  let voice_path := _resolve_voice_path Config voice_library voice_name in
  voice_path = VOICE_SAMPLE_PATH Config \/
  (voice_path <> ""%string /\
   ((exists n,
       voice_name = Some n /\ n <> ""%string /\ n <> "default"%string /\
       get_voice_path voice_library n = Some voice_path) \/
    (exists d,
       (voice_name = None \/ voice_name = Some ""%string \/
        voice_name = Some "default"%string) /\
       get_default_voice voice_library = Some d /\ d <> ""%string /\
       get_voice_path voice_library d = Some voice_path))).
Proof.
  cbv zeta. unfold _resolve_voice_path.
  assert (Hdef :
    forall vn,
      vn = None \/ vn = Some ""%string \/ vn = Some "default"%string ->
      let p := match if_truthy (get_default_voice voice_library) with
               | Some default_voice =>
                 match if_truthy (get_voice_path voice_library default_voice)
                 with
                 | Some voice_path => voice_path
                 | None => VOICE_SAMPLE_PATH Config
                 end
               | None => VOICE_SAMPLE_PATH Config
               end in
      p = VOICE_SAMPLE_PATH Config \/
      (p <> ""%string /\
       ((exists n,
           vn = Some n /\ n <> ""%string /\ n <> "default"%string /\
           get_voice_path voice_library n = Some p) \/
        (exists d,
           (vn = None \/ vn = Some ""%string \/ vn = Some "default"%string) /\
           get_default_voice voice_library = Some d /\ d <> ""%string /\
           get_voice_path voice_library d = Some p)))).
  { intros vn Hvn. cbv zeta.
    destruct (if_truthy (get_default_voice voice_library)) as [d|] eqn:Hd;
      [|left; reflexivity].
    destruct (if_truthy (get_voice_path voice_library d)) as [p|] eqn:Hp;
      [|left; reflexivity].
    apply if_truthy_some in Hd. destruct Hd as [Hd Hdne].
    apply if_truthy_some in Hp. destruct Hp as [Hp Hpne].
    right. split; [exact Hpne|]. right. exists d. auto. }
  destruct voice_name as [n|]; cbn [if_truthy].
  - destruct (String.eqb_spec n "") as [->|Hne].
    + apply Hdef. auto.
    + destruct (String.eqb_spec n "default") as [->|Hnd].
      * apply Hdef. auto.
      * destruct (if_truthy (get_voice_path voice_library n)) as [p|] eqn:Hp;
          [|left; reflexivity].
        apply if_truthy_some in Hp. destruct Hp as [Hp Hpne].
        right. split; [exact Hpne|]. left. exists n. auto.
  - apply Hdef. auto.
Qed.

(** X6: a request that names a voice of the library, other than
    ["default"], is synthesised from the (non-empty) path that the library
    holds for that name, whatever the default voice of the library is and
    whatever language or speaker the request carries. *)
Theorem named_voice_resolves_to_its_path
        (L : Type) (API : VoiceLibraryAPI L) (Config : AppConfig)
        (voice_library : L) (request_text voice_name voice_path : string)
        (lang speaker : option string) :
  voice_name <> ""%string ->
  voice_name <> "default"%string ->
  get_voice_path voice_library voice_name = Some voice_path ->
  voice_path <> ""%string ->
  _resolve_voice_path Config voice_library
    (requested_voice_name
       (mkSynthesize request_text
          (Some (mkSynthesizeVoice (Some voice_name) lang speaker))))
  = voice_path.
Proof.
  intros Hne Hnd Hpath Hpne.
  unfold requested_voice_name. cbn [voice sv_name].
  rewrite (if_truthy_nonempty _ Hne).
  unfold _resolve_voice_path. rewrite (if_truthy_nonempty _ Hne).
  destruct (String.eqb_spec voice_name "default") as [->|_];
    [contradiction|].
  rewrite Hpath, (if_truthy_nonempty _ Hpne). reflexivity.
Qed.

Lemma named_voice_resolves_to_its_path_witness :
  _resolve_voice_path example_Config library_after_discovery
    (requested_voice_name
       (mkSynthesize "hello"
          (Some (mkSynthesizeVoice (Some "alice"%string) (Some "en"%string)
                   None))))
  = "voices/alice.wav"%string.
Proof.
  apply (named_voice_resolves_to_its_path _ _ example_Config
           library_after_discovery "hello" "alice" "voices/alice.wav"
           (Some "en"%string) None).
  - discriminate.
  - discriminate.
  - vm_compute. reflexivity.
  - discriminate.
Defined.

(** X7: a request is answered from its text and the name of its voice
    alone.  The language and the speaker of the voice are not read; and a
    request with no voice, with a voice of no name, of the empty name or
    of the name ["default"] are all answered alike, whatever the library
    holds. *)
Theorem answer_depends_on_text_and_voice_name
        (L : Type) (API : VoiceLibraryAPI L) (Config : AppConfig)
        (generate : Generate) (config : WyomingConfig) (voice_library : L)
        (request_text : string) :
  let answer voice :=
    handle_event Config generate config voice_library
      (SynthesizeEvent (mkSynthesize request_text voice)) in
  (forall voice_name lang speaker lang' speaker',
     answer (Some (mkSynthesizeVoice voice_name lang speaker))
     = answer (Some (mkSynthesizeVoice voice_name lang' speaker'))) /\
  (forall lang speaker,
     answer (Some (mkSynthesizeVoice None lang speaker)) = answer None /\
     answer (Some (mkSynthesizeVoice (Some ""%string) lang speaker))
     = answer None /\
     answer (Some (mkSynthesizeVoice (Some "default"%string) lang speaker))
     = answer None).
Proof.
  cbv zeta. split.
  - intros. reflexivity.
  - intros lang speaker. repeat split.
Qed.

(** X8: the name ["default"] is never looked up in the library.  When the
    library has no default voice set, a request for the voice ["default"]
    is synthesised from [Config.VOICE_SAMPLE_PATH], also when the library
    holds a voice under the name ["default"] with another path. *)
Theorem voice_named_default_is_shadowed
        (L : Type) (API : VoiceLibraryAPI L) (Config : AppConfig)
        (voice_library : L) (request_text stored_path : string)
        (lang speaker : option string) :
  if_truthy (get_default_voice voice_library) = None ->
  get_voice_path voice_library "default" = Some stored_path ->
  stored_path <> VOICE_SAMPLE_PATH Config ->
  _resolve_voice_path Config voice_library
    (requested_voice_name
       (mkSynthesize request_text
          (Some (mkSynthesizeVoice (Some "default"%string) lang speaker))))
  = VOICE_SAMPLE_PATH Config /\
  _resolve_voice_path Config voice_library
    (requested_voice_name
       (mkSynthesize request_text
          (Some (mkSynthesizeVoice (Some "default"%string) lang speaker))))
  <> stored_path.
Proof.
  intros Hdef Hstored Hne.
  assert (Hres : _resolve_voice_path Config voice_library
                   (requested_voice_name
                      (mkSynthesize request_text
                         (Some (mkSynthesizeVoice (Some "default"%string)
                                  lang speaker))))
                 = VOICE_SAMPLE_PATH Config).
  { unfold requested_voice_name. cbn [voice sv_name if_truthy String.eqb
                                      Ascii.eqb Bool.eqb].
    unfold _resolve_voice_path. rewrite Hdef. reflexivity. }
  split; [exact Hres|]. rewrite Hres. congruence.
Qed.

Lemma voice_named_default_is_shadowed_witness :
  _resolve_voice_path example_Config
    (VoiceLibrary.mk "voices"
       [mkVoiceProfile "default" "voices/default.wav" "default.wav" "en"
          uploaded 1700000000]
       None)
    (requested_voice_name
       (mkSynthesize "hello"
          (Some (mkSynthesizeVoice (Some "default"%string) None None))))
  = "voice-sample.mp3"%string /\
  _resolve_voice_path example_Config
    (VoiceLibrary.mk "voices"
       [mkVoiceProfile "default" "voices/default.wav" "default.wav" "en"
          uploaded 1700000000]
       None)
    (requested_voice_name
       (mkSynthesize "hello"
          (Some (mkSynthesizeVoice (Some "default"%string) None None))))
  <> "voices/default.wav"%string.
Proof.
  apply (voice_named_default_is_shadowed _ _ example_Config
           (VoiceLibrary.mk "voices"
              [mkVoiceProfile "default" "voices/default.wav" "default.wav"
                 "en" uploaded 1700000000]
              None)
           "hello" "voices/default.wav" None None).
  - reflexivity.
  - reflexivity.
  - discriminate.
Defined.

(** X9: of the configuration, the handler reads the sample rate, the
    sample width and the channels only: two configurations that agree on
    these give the same answer to every event, whatever their [host],
    [port] and [default_voice] are.  The default voice of the
    configuration selects no voice. *)
Theorem answer_ignores_host_port_default_voice
        (L : Type) (API : VoiceLibraryAPI L) (Config : AppConfig)
        (generate : Generate) (config config' : WyomingConfig)
        (voice_library : L) (event : Event) :
  sample_rate config = sample_rate config' ->
  sample_width config = sample_width config' ->
  channels config = channels config' ->
  handle_event Config generate config voice_library event
  = handle_event Config generate config' voice_library event.
Proof.
  intros Hr Hw Hc. unfold handle_event, _handle_synthesize, _generate_speech.
  rewrite Hr, Hw, Hc. reflexivity.
Qed.

Lemma answer_ignores_host_port_default_voice_witness :
  handle_event example_Config generate_two_samples
    (mkWyomingConfig "127.0.0.1" 10300 "alice" 24000 2 1)
    library_after_discovery (SynthesizeEvent hello)
  = handle_event example_Config generate_two_samples WyomingConfig_default
      library_after_discovery (SynthesizeEvent hello).
Proof.
  apply (answer_ignores_host_port_default_voice _ _ example_Config
           generate_two_samples
           (mkWyomingConfig "127.0.0.1" 10300 "alice" 24000 2 1)
           WyomingConfig_default library_after_discovery
           (SynthesizeEvent hello));
    reflexivity.
Defined.

(* ================================================================== *)
(** * Further properties: what [_create_audio_response] reads *)
(* ================================================================== *)

Lemma bytes_eqb_eq a : forall b, bytes_eqb a b = true -> a = b.
Proof.
  induction a as [|x a IH]; intros [|y b]; cbn [bytes_eqb]; try discriminate.
  - reflexivity.
  - intro H. apply andb_true_iff in H. destruct H as [Hx Hab].
    apply Byte.byte_dec_bl in Hx. rewrite Hx, (IH _ Hab). reflexivity.
Qed.

Lemma bytes_eqb_neq a b : a <> b -> bytes_eqb a b = false.
Proof.
  intro Hne. destruct (bytes_eqb a b) eqn:Heq; [|reflexivity].
  exfalso. apply Hne. apply bytes_eqb_eq. exact Heq.
Qed.

Lemma Chunk_init_BytesIO b0 b1 b2 b3 b4 b5 b6 b7 rest :
  Chunk_init (mkBytesIO (b0 :: b1 :: b2 :: b3 :: b4 :: b5 :: b6 :: b7 :: rest) 0)
  = Ok (mkChunk
          (mkBytesIO (b0 :: b1 :: b2 :: b3 :: b4 :: b5 :: b6 :: b7 :: rest) 8)
          [b0; b1; b2; b3] (le_int [b4; b5; b6; b7]) 0 8).
Proof. reflexivity. Qed.

Lemma len_firstn_le n (l : bytes) : len (firstn n l) <= Z.of_nat n.
Proof. unfold len. pose proof (firstn_le_length n l). lia. Qed.

(** The first read of [size] bytes from a RIFF chunk that stands at the
    start of its body. *)
Lemma riff_first_read buf name cs size :
  0 <= size ->
  exists riff',
    Chunk_read (mkChunk (mkBytesIO buf 8) name cs 0 8) size
    = (firstn (Z.to_nat (Z.max 0 (Z.min size cs))) (skipn 8 buf), riff').
Proof.
  intro Hsize. unfold Chunk_read.
  cbn [size_read chunksize c_file chunkname c_offset fread BytesIO_FileLike].
  rewrite Z.sub_0_r.
  destruct (Z.geb_spec 0 cs) as [Hle|Hgt].
  - eexists. replace (Z.max 0 (Z.min size cs)) with 0 by lia. reflexivity.
  - rewrite (proj2 (Z.ltb_ge size 0)) by lia.
    unfold BytesIO_read. cbn [bio_pos bio_buf].
    change (Z.to_nat 8) with 8%nat.
    replace (Z.max 0 (Z.min size cs))
      with (if size >? cs then cs else size)
      by (destruct (Z.gtb_spec size cs); lia).
    destruct ((0 + _ =? cs) && Z.odd cs); eexists; reflexivity.
Qed.

(** X10: [_create_audio_response] refuses what is not a WAVE container:
    fewer than 8 bytes raise [EOFError]; 8 bytes or more that do not start
    with [RIFF] raise [wave.Error] "file does not start with RIFF id"; and
    a RIFF file whose bytes 8 to 11 are not [WAVE] raises [wave.Error]
    "not a WAVE file". *)
Theorem not_a_wave_file_is_refused (audio_data : bytes) :
  (len audio_data < 8 -> _create_audio_response audio_data = Raise EOFError) /\
  (8 <= len audio_data ->
   firstn 4 audio_data <> b_ "RIFF" ->
   _create_audio_response audio_data
   = Raise (WaveError "file does not start with RIFF id")) /\
  (8 <= len audio_data ->
   firstn 4 audio_data = b_ "RIFF" ->
   firstn 4 (skipn 8 audio_data) <> b_ "WAVE" ->
   _create_audio_response audio_data = Raise (WaveError "not a WAVE file")).
Proof.
  unfold _create_audio_response, wave_decode, Wave_read_initfp,
    Wave_read_initfp_turns.
  split; [|split].
  - intro Hlen.
    do 8 (destruct audio_data as [|? audio_data]; [reflexivity|]).
    exfalso. unfold len in Hlen. cbn [List.length] in Hlen. lia.
  - intros Hlen Hriff.
    do 8 (destruct audio_data as [|? audio_data];
          [exfalso; unfold len in Hlen; cbn [List.length] in Hlen; lia|]).
    cbn [firstn] in Hriff.
    rewrite Chunk_init_BytesIO. cbn [bind chunkname].
    rewrite (bytes_eqb_neq _ _ Hriff). reflexivity.
  - intros Hlen Hriff Hwave.
    do 8 (destruct audio_data as [|? audio_data];
          [exfalso; unfold len in Hlen; cbn [List.length] in Hlen; lia|]).
    cbn [firstn] in Hriff. cbn [skipn] in Hwave.
    rewrite Chunk_init_BytesIO. cbn [bind chunkname].
    rewrite Hriff. change (negb (bytes_eqb (b_ "RIFF") (b_ "RIFF"))) with false.
    cbv iota. cbn [fread Chunk_FileLike].
    match goal with
    | |- context [Chunk_read (mkChunk (mkBytesIO ?buf 8) ?nm ?cs 0 8) 4] =>
      destruct (riff_first_read buf nm cs 4 ltac:(lia)) as (riff' & ->)
    end.
    cbn [skipn].
    match goal with
    | |- context [bytes_eqb ?form (b_ "WAVE")] =>
      destruct (bytes_eqb form (b_ "WAVE")) eqn:Hform; [|reflexivity]
    end.
    exfalso. apply bytes_eqb_eq in Hform. apply Hwave.
    assert (Hk : Z.to_nat (Z.max 0 (Z.min 4 (le_int [b3; b4; b5; b6]))) = 4%nat).
    { apply (f_equal len) in Hform.
      pose proof (len_firstn_le
                    (Z.to_nat (Z.max 0 (Z.min 4 (le_int [b3; b4; b5; b6]))))
                    audio_data) as Hle.
      rewrite Hform in Hle. change (len (b_ "WAVE")) with 4 in Hle. lia. }
    rewrite Hk in Hform. exact Hform.
Qed.

Lemma not_a_wave_file_is_refused_witness :
  _create_audio_response [x52; x49; x46] = Raise EOFError /\
  _create_audio_response (b_ "OggS0000")
  = Raise (WaveError "file does not start with RIFF id") /\
  _create_audio_response (b_ "RIFF0000AVI ")
  = Raise (WaveError "not a WAVE file").
Proof.
  split; [|split].
  - apply (proj1 (not_a_wave_file_is_refused [x52; x49; x46])).
    unfold len. cbn. lia.
  - apply (proj1 (proj2 (not_a_wave_file_is_refused (b_ "OggS0000")))).
    + unfold len. cbn. lia.
    + cbn. discriminate.
  - apply (proj2 (proj2 (not_a_wave_file_is_refused (b_ "RIFF0000AVI ")))).
    + unfold len. cbn. lia.
    + reflexivity.
    + cbn. discriminate.
Defined.

Lemma le_int_2_bound b0 b1 : 0 <= le_int [b0; b1] < 2 ^ 16.
Proof.
  cbn [le_int]. pose proof (Z_of_byte_range b0). pose proof (Z_of_byte_range b1).
  lia.
Qed.

Lemma le_int_4_bound b0 b1 b2 b3 : 0 <= le_int [b0; b1; b2; b3] < 2 ^ 32.
Proof.
  cbn [le_int]. pose proof (Z_of_byte_range b0). pose proof (Z_of_byte_range b1).
  pose proof (Z_of_byte_range b2). pose proof (Z_of_byte_range b3).
  lia.
Qed.

Lemma read_fmt_chunk_range chunk info chunk' :
  _read_fmt_chunk chunk = Ok (info, chunk') -> format_in_range info.
Proof.
  unfold _read_fmt_chunk.
  destruct (fread chunk 14) as [d c1].
  do 14 (destruct d as [|? d]; [discriminate|]).
  destruct (_ =? WAVE_FORMAT_PCM); [|discriminate].
  destruct (fread c1 2) as [d2 c2].
  do 2 (destruct d2 as [|? d2]; [discriminate|]).
  match goal with
  | |- context [le_int [?s0; ?s1] + 7] =>
    pose proof (le_int_2_bound s0 s1) as Hs
  end.
  match goal with
  | |- context [mkFmtInfo (le_int [?n0; ?n1]) (le_int [?f0; ?f1; ?f2; ?f3])] =>
    pose proof (le_int_2_bound n0 n1) as Hn;
    pose proof (le_int_4_bound f0 f1 f2 f3) as Hf
  end.
  match type of Hs with 0 <= ?x < _ => set (bits := x) in * end.
  match type of Hn with 0 <= ?x < _ => set (nch := x) in * end.
  match type of Hf with 0 <= ?x < _ => set (rate := x) in * end.
  destruct (Z.eqb_spec ((bits + 7) / 8) 0) as [|Hw]; [discriminate|].
  destruct (Z.eqb_spec nch 0) as [|Hc]; [discriminate|].
  intros [= <- _]. unfold format_in_range.
  cbn [fmt_nchannels fmt_sampwidth fmt_framerate fmt_framesize].
  assert (0 <= (bits + 7) / 8 < 8193).
  { split; [apply Z.div_pos; lia|]. apply Z.div_lt_upper_bound; lia. }
  repeat split; lia.
Qed.

Lemma read_chunks_range fuel :
  forall riff fmt w,
    read_chunks fuel riff fmt = Ok w ->
    (forall info, fmt = Some info -> format_in_range info) ->
    1 <= r_nchannels w < 2 ^ 16 /\
    1 <= r_sampwidth w <= 8192 /\
    0 <= r_framerate w < 2 ^ 32 /\
    r_framesize w = r_nchannels w * r_sampwidth w.
Proof.
  induction fuel as [|fuel IH]; intros riff fmt w; [discriminate|].
  rewrite read_chunks_S. intros Hrun Hfmt.
  destruct (Chunk_init riff) as [chunk|e]; [|discriminate].
  destruct (bytes_eqb (chunkname chunk) (b_ "fmt ")).
  - destruct (_read_fmt_chunk chunk) as [[info chunk1]|e] eqn:Hread;
      [|discriminate].
    cbn [bind] in Hrun.
    destruct (Chunk_skip chunk1) as [chunk2|e]; [|discriminate].
    cbn [bind] in Hrun.
    apply (IH _ _ _ Hrun). intros info' [= <-].
    exact (read_fmt_chunk_range _ _ _ Hread).
  - destruct (bytes_eqb (chunkname chunk) (b_ "data")).
    + destruct fmt as [info|]; [|discriminate].
      injection Hrun as <-.
      cbn [r_nchannels r_sampwidth r_framerate r_framesize].
      exact (Hfmt info eq_refl).
    + destruct (Chunk_skip chunk) as [chunk1|e]; [|discriminate].
      cbn [bind] in Hrun. exact (IH _ _ _ Hrun Hfmt).
Qed.

(** X11: whatever bytes [_create_audio_response] is given, when it returns
    it returns a stream start, one chunk and a stream end that carry one
    and the same format, with at least one channel (fewer than 2^16), a
    sample width of 1 to 8192 bytes and a rate below 2^32: a frame is
    never of size zero. *)
Theorem decoded_format_in_range (audio_data : bytes) (events : list Event) :
  _create_audio_response audio_data = Ok events ->
  exists rate width channels frames,
    events = [AudioStart rate width channels;
              AudioChunk frames rate width channels;
              AudioStop] /\
    1 <= channels < 2 ^ 16 /\ 1 <= width <= 8192 /\ 0 <= rate < 2 ^ 32.
Proof.
  unfold _create_audio_response, wave_decode, Wave_read_initfp,
    Wave_read_initfp_turns.
  destruct (Chunk_init (mkBytesIO audio_data 0)) as [riff|e]; [|discriminate].
  cbn [bind].
  destruct (negb (bytes_eqb (chunkname riff) (b_ "RIFF"))); [discriminate|].
  destruct (fread riff 4) as [form riff1].
  destruct (negb (bytes_eqb form (b_ "WAVE"))); [discriminate|].
  destruct (read_chunks _ riff1 None) as [w|e] eqn:Hrun; [|discriminate].
  cbn [bind]. intros [= <-].
  destruct (read_chunks_range _ _ _ _ Hrun) as (Hc & Hw & Hr & _);
    [discriminate|].
  eexists _, _, _, _. split; [reflexivity|]. auto.
Qed.

Lemma decoded_format_in_range_witness :
  exists rate width channels frames,
    [AudioStart 24000 2 1; AudioChunk [x01; x02; x03; x04] 24000 2 1;
     AudioStop]
    = [AudioStart rate width channels;
       AudioChunk frames rate width channels;
       AudioStop] /\
    1 <= channels < 2 ^ 16 /\ 1 <= width <= 8192 /\ 0 <= rate < 2 ^ 32.
Proof.
  apply (decoded_format_in_range
           (wav_header 1 2 24000 4 ++ [x01; x02; x03; x04])).
  vm_compute. reflexivity.
Defined.

(* ================================================================== *)
(** * Further properties: starting the server *)
(* ================================================================== *)

(** X13: a server started by [start_wyoming_server], on any host and port
    and with any default voice, answers in the format of the dataclass
    defaults: 24000 Hz, 2 bytes a sample, one channel.  The chunk holds
    the samples of the model up to the last whole 16-bit sample; a
    trailing odd byte is left out. *)
Theorem started_server_answers_in_16_bit_mono
        (L : Type) (API : VoiceLibraryAPI L) (Config : AppConfig)
        (generate : Generate) (host : string) (port : Z)
        (default_voice : string) (voice_library : L)
        (synthesize : Synthesize) (samples : bytes) :
  generate (text synthesize)
    (_resolve_voice_path Config voice_library (requested_voice_name synthesize))
    (EXAGGERATION Config) (CFG_WEIGHT Config) (TEMPERATURE Config)
  = Ok samples ->
  36 + len samples < 2 ^ 32 ->
  server_handle_event Config generate
    (start_wyoming_server host port default_voice voice_library)
    (SynthesizeEvent synthesize)
  = Ok (Some [AudioStart 24000 2 1;
              AudioChunk (whole_frames_prefix 1 2 samples) 24000 2 1;
              AudioStop]) /\
  len (whole_frames_prefix 1 2 samples) = 2 * (len samples / 2).
Proof.
  intros Hgen Hlen.
  assert (Hv : valid_format 1 2 24000) by exact valid_format_default.
  split.
  - unfold server_handle_event, start_wyoming_server, startup,
      start_wyoming_config.
    cbn [the_server the_library ChatterboxWyomingServer_init srv_config].
    unfold handle_event.
    cbn [is_type event_type String.eqb Ascii.eqb Bool.eqb
         Synthesize_from_event bind].
    unfold _handle_synthesize, _generate_speech. cbv zeta.
    rewrite Hgen. cbn [bind channels sample_width sample_rate].
    rewrite (wave_encode_any_length _ _ _ _ Hv Hlen).
    cbn [bind]. unfold _create_audio_response.
    rewrite (wave_decode_any_length _ _ _ _ Hv Hlen).
    reflexivity.
  - destruct (whole_frames_prefix_length 1 2 samples ltac:(lia)) as [-> _].
    change (1 * 2) with 2. lia.
Qed.

Lemma started_server_answers_in_16_bit_mono_witness :
  server_handle_event example_Config (fun _ _ _ _ _ => Ok [x01; x02; x03])
    (start_wyoming_server "127.0.0.1" 10300 "alice" library_after_discovery)
    (SynthesizeEvent hello)
  = Ok (Some [AudioStart 24000 2 1;
              AudioChunk (whole_frames_prefix 1 2 [x01; x02; x03]) 24000 2 1;
              AudioStop]) /\
  len (whole_frames_prefix 1 2 [x01; x02; x03]) = 2 * (len [x01; x02; x03] / 2).
Proof.
  apply (started_server_answers_in_16_bit_mono _ _ example_Config
           (fun _ _ _ _ _ => Ok [x01; x02; x03]) "127.0.0.1" 10300 "alice"
           library_after_discovery hello [x01; x02; x03]).
  - reflexivity.
  - vm_compute. reflexivity.
Defined.

Lemma lower_char_t a :
  Ascii.eqb (lower_char a) "t" = Ascii.eqb a "t" || Ascii.eqb a "T".
Proof. destruct a as [[] [] [] [] [] [] [] []]; reflexivity. Qed.

Lemma lower_char_r a :
  Ascii.eqb (lower_char a) "r" = Ascii.eqb a "r" || Ascii.eqb a "R".
Proof. destruct a as [[] [] [] [] [] [] [] []]; reflexivity. Qed.

Lemma lower_char_u a :
  Ascii.eqb (lower_char a) "u" = Ascii.eqb a "u" || Ascii.eqb a "U".
Proof. destruct a as [[] [] [] [] [] [] [] []]; reflexivity. Qed.

Lemma lower_char_e a :
  Ascii.eqb (lower_char a) "e" = Ascii.eqb a "e" || Ascii.eqb a "E".
Proof. destruct a as [[] [] [] [] [] [] [] []]; reflexivity. Qed.

Lemma lower_is_true v : (lower v =? "true")%string = spells_true v.
Proof.
  destruct v as [|a [|b [|c [|d [|e v]]]]];
    cbn [lower String.eqb spells_true];
    rewrite ?lower_char_t, ?lower_char_r, ?lower_char_u, ?lower_char_e;
    try reflexivity;
    repeat match goal with
           | |- context [Ascii.eqb ?x ?y || Ascii.eqb ?x ?z] =>
             destruct (Ascii.eqb x y || Ascii.eqb x z)
           end; reflexivity.
Qed.


